(** * Sports-highlights pipeline: a shallow embedding of [app/pipeline.py]
      and [app/mediaconvert_client.py], with the properties of the design
      specification stated over it.

    Layout:
    - [PyStr]      : the string methods the code calls ([startswith],
                     [endswith], [split]), [os.path.join], [pathlib.Path.name]
                     and [strftime];
    - [Json]       : the parsed highlights document and Python truthiness;
    - [Selector]   : [pick_random_video_from_json] and its inner [walk];
    - [Transcode]  : [submit_job] and [poll_job];
    - [Pipeline]   : the orchestrator [main] over an explicit world and an
                     environment that answers every external call;
    - [Logger]     : the buffering [PipelineLogger] of [app/logger.py].

    The properties follow the definitions, one module of facts for each
    module of code.  Paths are POSIX paths. *)

From Stdlib Require Import List String Ascii Bool Arith ZArith NArith Lia.
From Stdlib Require Finite.
From Stdlib Require Import Floats.PrimFloat.
Import ListNotations.

Set Warnings "-register-all".

Local Open Scope string_scope.
Local Open Scope list_scope.

(* ------------------------------------------------------------------ *)
(** ** Python string and path helpers                                   *)
(* ------------------------------------------------------------------ *)

Module PyStr.

(** [s.startswith(p)] *)
Definition startswith (p s : string) : bool := String.prefix p s.

(** [s.endswith(suf)]: [suf] is [s] itself or a suffix of its tail. *)
Fixpoint endswith (suf s : string) : bool :=
  String.eqb s suf
  || match s with
     | EmptyString => false
     | String _ r => endswith suf r
     end.

(** [s.split(sep)] for a one-character separator: never the empty list. *)
Fixpoint split (sep : ascii) (s : string) : list string :=
  match s with
  | EmptyString => [EmptyString]
  | String c r =>
      if Ascii.eqb c sep then EmptyString :: split sep r
      else match split sep r with
           | [] => [String c EmptyString]
           | h :: t => String c h :: t
           end
  end.

(** Does the character occur in the string. *)
Fixpoint mem_char (c : ascii) (s : string) : bool :=
  match s with
  | EmptyString => false
  | String d r => Ascii.eqb d c || mem_char c r
  end.

Definition slash : ascii := "/"%char.

(** A path component that [pathlib] keeps: not empty and not ["."]. *)
Definition kept_part (x : string) : bool :=
  negb (String.eqb x "") && negb (String.eqb x ".").

(** [pathlib.PurePosixPath(p).name]: the last kept part, [""] if none. *)
Definition path_name (p : string) : string :=
  List.last (List.filter kept_part (split slash p)) "".

(** [os.path.join(a, b)] of [posixpath]. *)
Definition path_join (a b : string) : string :=
  if startswith "/" b then b
  else if String.eqb a "" || endswith "/" a then a ++ b
  else a ++ "/" ++ b.

(** [x or default] on strings. *)
Definition str_or (x default : string) : string :=
  if String.eqb x "" then default else x.

(** [datetime.now()], as the fields [strftime] reads. *)
Record datetime : Type := mkDatetime {
  year : N; month : N; day : N;
  hour : N; minute : N; second : N
}.

(** The ranges [datetime] guarantees for its fields; the year is taken
    with four digits, as every present-day clock gives it. *)
Definition valid_datetime (t : datetime) : bool :=
  ((1000 <=? year t) && (year t <=? 9999)
   && (1 <=? month t) && (month t <=? 12)
   && (1 <=? day t) && (day t <=? 31)
   && (hour t <=? 23) && (minute t <=? 59) && (second t <=? 59))%N.

Definition digit (d : N) : ascii := ascii_of_N (48 + d).

(** [%m], [%d], [%H], [%M], [%S]: two digits, zero padded. *)
Definition pad2 (n : N) : string :=
  String (digit (n / 10)) (String (digit (n mod 10)) "").

(** [%Y]: four digits. *)
Definition pad4 (n : N) : string :=
  String (digit (n / 1000))
         (String (digit (n / 100 mod 10)) (pad2 (n mod 100))).

(** [t.strftime('%Y%m%d_%H%M%S')] *)
Definition strftime_compact (t : datetime) : string :=
  pad4 (year t) ++ pad2 (month t) ++ pad2 (day t) ++ "_"
  ++ pad2 (hour t) ++ pad2 (minute t) ++ pad2 (second t).

Definition is_digit (c : ascii) : bool :=
  let n := N_of_ascii c in ((48 <=? n) && (n <=? 57))%N.

Fixpoint all_digits (s : string) : bool :=
  match s with
  | EmptyString => true
  | String c r => is_digit c && all_digits r
  end.

(** The shape [YYYYMMDD_HHMMSS]: eight digits, an underscore, six digits. *)
Definition is_compact_stamp (s : string) : bool :=
  (String.length s =? 15)%nat
  && all_digits (String.substring 0 8 s)
  && String.eqb (String.substring 8 1 s) "_"
  && all_digits (String.substring 9 6 s).

End PyStr.

(* ------------------------------------------------------------------ *)
(** ** The highlights document                                          *)
(* ------------------------------------------------------------------ *)

Module Json.

(** What [response.json()] yields: [None], [bool], [int], [float], [str],
    [list], and [dict] (insertion ordered, hence an association list). *)
Inductive json : Type :=
| JNull
| JBool (b : bool)
| JInt (z : Z)
| JFloat (f : float)
| JStr (s : string)
| JList (items : list json)
| JDict (items : list (string * json)).

(** Python truthiness, as tested by [if not highlights]. *)
Definition truthy (v : json) : bool :=
  match v with
  | JNull => false
  | JBool b => b
  | JInt z => negb (Z.eqb z 0)
  | JFloat f => negb (PrimFloat.eqb f PrimFloat.zero)
  | JStr s => negb (String.eqb s "")
  | JList l => match l with [] => false | _ => true end
  | JDict l => match l with [] => false | _ => true end
  end.

Section Induction.
Variable P : json -> Prop.
Hypothesis Hnull : P JNull.
Hypothesis Hbool : forall b, P (JBool b).
Hypothesis Hint : forall z, P (JInt z).
Hypothesis Hfloat : forall f, P (JFloat f).
Hypothesis Hstr : forall s, P (JStr s).
Hypothesis Hlist : forall l, Forall P l -> P (JList l).
Hypothesis Hdict : forall l, Forall (fun kv => P (snd kv)) l -> P (JDict l).

Fixpoint json_rect' (v : json) : P v :=
  match v with
  | JNull => Hnull
  | JBool b => Hbool b
  | JInt z => Hint z
  | JFloat f => Hfloat f
  | JStr s => Hstr s
  | JList l =>
      Hlist l ((fix go (l : list json) : Forall P l :=
                  match l with
                  | [] => Forall_nil _
                  | x :: r => Forall_cons _ (json_rect' x) (go r)
                  end) l)
  | JDict l =>
      Hdict l ((fix go (l : list (string * json))
                  : Forall (fun kv => P (snd kv)) l :=
                  match l with
                  | [] => Forall_nil _
                  | kv :: r => Forall_cons _ (json_rect' (snd kv)) (go r)
                  end) l)
  end.
End Induction.

End Json.

(* ------------------------------------------------------------------ *)
(** ** VideoSelector: [pick_random_video_from_json]                     *)
(* ------------------------------------------------------------------ *)

Module Selector.
Import Json.

(** The test of line 49: [v.endswith(".mp4") or v.startswith("http")]. *)
Definition qualifies (v : string) : bool :=
  PyStr.endswith ".mp4" v || PyStr.startswith "http" v.

(** [walk(obj)], threading the closure variable [candidates] that the
    source mutates with [append]. *)
Fixpoint walk (obj : json) (candidates : list string) : list string :=
  match obj with
  | JDict items =>
      fold_left
        (fun candidates '(k, v) =>
           match v with
           | JStr s => if qualifies s then candidates ++ [s]
                       else walk v candidates
           | _ => walk v candidates
           end)
        items candidates
  | JList its =>
      fold_left (fun candidates it => walk it candidates) its candidates
  | _ => candidates
  end.

(** The loop body of lines 48-52 on an empty candidate list. *)
Definition item_candidates (kv : string * json) : list string :=
  match snd kv with
  | JStr s => if qualifies s then [s] else walk (snd kv) []
  | _ => walk (snd kv) []
  end.

(** [random.choice(seq)]: the generator's draw is an argument; any draw
    lands on an index below [len(seq)]. *)
Definition random_choice (draw : nat) (seq : list string) : option string :=
  match seq with
  | [] => None
  | _ => nth_error seq (draw mod List.length seq)
  end.

Definition pick_random_video_from_json (highlights_json : json) (draw : nat)
  : option string :=
  let candidates := walk highlights_json [] in
  match candidates with
  | [] => None
  | _ => random_choice draw candidates
  end.

(** *** The traversal with its call trace

    The same traversal, recording where [walk] is invoked and where
    [candidates.append] runs.  A position is the route from the root:
    [InItem i] is the value of the [i]-th item of a [dict], [InElem i] the
    [i]-th element of a [list]. *)

Inductive step : Type := InItem (i : nat) | InElem (i : nat).
Definition path : Type := list step.

Inductive event : Type :=
| Visit (p : path)                (* [walk] is called on the value at [p] *)
| Append (p : path) (s : string). (* [candidates.append(s)] for the value at [p] *)

Definition under (st : step) (e : event) : event :=
  match e with
  | Visit p => Visit (st :: p)
  | Append p s => Append (st :: p) s
  end.

Section FlatMapi.
Context {A B : Type}.
Variable f : nat -> A -> list B.

(** A [for] loop over [enumerate(l, start=i)] that concatenates. *)
Fixpoint flat_mapi (i : nat) (l : list A) : list B :=
  match l with
  | [] => []
  | x :: rest => f i x ++ flat_mapi (S i) rest
  end.
End FlatMapi.

(** The body of the loop of lines 48-52 for the [i]-th item. *)
Definition item_events (walk_events : json -> list event) (i : nat)
    (kv : string * json) : list event :=
  let '(k, v) := kv in
  match v with
  | JStr s => if qualifies s then [Append [InItem i] s]
              else map (under (InItem i)) (walk_events v)
  | _ => map (under (InItem i)) (walk_events v)
  end.

(** The body of the loop of lines 54-55 for the [i]-th element. *)
Definition elem_events (walk_events : json -> list event) (i : nat)
    (it : json) : list event :=
  map (under (InElem i)) (walk_events it).

Fixpoint walk_events (obj : json) : list event :=
  Visit [] ::
  match obj with
  | JDict items => flat_mapi (item_events walk_events) 0 items
  | JList its => flat_mapi (elem_events walk_events) 0 its
  | _ => []
  end.

(** The appends of a trace, in order, with their positions. *)
Definition appends (evs : list event) : list (path * string) :=
  flat_map (fun e => match e with Append p s => [(p, s)] | Visit _ => [] end)
           evs.

(** The positions on which [walk] was called. *)
Definition visits (evs : list event) : list path :=
  flat_map (fun e => match e with Visit p => [p] | Append _ _ => [] end) evs.

Definition event_path (e : event) : path :=
  match e with Visit p => p | Append p _ => p end.

(** The index of the first step of a route. *)
Definition head_index (p : path) : nat :=
  match p with
  | InItem i :: _ => i
  | InElem i :: _ => i
  | [] => 0
  end.

Definition step_eq_dec (a b : step) : {a = b} + {a <> b}.
Proof. decide equality; apply Nat.eq_dec. Defined.

Definition path_eq_dec : forall p q : path, {p = q} + {p <> q} :=
  list_eq_dec step_eq_dec.

(** A position that the test of line 49 classifies as qualifying: the
    value of a [dict] item, at any depth, holding a qualifying string. *)
Inductive classified : json -> path -> string -> Prop :=
| classified_here items i k s :
    nth_error items i = Some (k, JStr s) ->
    qualifies s = true ->
    classified (JDict items) [InItem i] s
| classified_item items i k v p s :
    nth_error items i = Some (k, v) ->
    classified v p s ->
    classified (JDict items) (InItem i :: p) s
| classified_elem its i v p s :
    nth_error its i = Some v ->
    classified v p s ->
    classified (JList its) (InElem i :: p) s.

(** Number of values in a document, containers included. *)
Fixpoint size (obj : json) : nat :=
  S match obj with
    | JDict items => list_sum (map (fun kv => size (snd kv)) items)
    | JList its => list_sum (map size its)
    | _ => 0
    end.

(** The qualifying set in the words of section 4.2 of the specification:
    every string of the document that ends with the video suffix or
    begins with the URL scheme, wherever it sits (root, sequence element,
    map value), in depth-first order.  This is the set the candidates of
    [walk] are compared with. *)
Fixpoint spec_qualifying_strings (doc : json) : list string :=
  match doc with
  | JStr s => if qualifies s then [s] else []
  | JList its => flat_map spec_qualifying_strings its
  | JDict items => flat_map (fun kv => spec_qualifying_strings (snd kv)) items
  | _ => []
  end.

(** A document whose only video URL is an element of a sequence, and the
    scenario document of section 8. *)
Definition doc_clip_in_list : json :=
  JDict [("clips", JList [JStr "http://x/a.mp4"])].

Definition doc_two_events : json :=
  JDict [("events", JList [JDict [("clip", JStr "http://x/a.mp4")];
                           JDict [("clip", JStr "http://x/b.mp4")]])].

(** Documents whose strings all sit directly under a map. *)
Fixpoint strings_under_maps (doc : json) : bool :=
  match doc with
  | JStr _ => false
  | JList its => forallb strings_under_maps its
  | JDict items =>
      forallb (fun kv => match snd kv with
                         | JStr _ => true
                         | _ => strings_under_maps (snd kv)
                         end) items
  | _ => true
  end.

End Selector.

(* ------------------------------------------------------------------ *)
(** ** TranscodeJobService: [submit_job] and [poll_job]                 *)
(* ------------------------------------------------------------------ *)

Module Transcode.
Import Json.

(** [d[key]] on a [dict] value; [None] stands for the [KeyError] (or the
    [TypeError] on a value that is no [dict]). *)
Definition subscript (d : json) (key : string) : option json :=
  match d with
  | JDict items =>
      match find (fun kv => String.eqb (fst kv) key) items with
      | Some kv => Some (snd kv)
      | None => None
      end
  | _ => None
  end.

(** The [job_settings] literal of lines 20-42. *)
Definition job_settings (role_arn input_s3 output_s3_prefix : string) : json :=
  JDict [
    ("Role", JStr role_arn);
    ("Settings", JDict [
      ("Inputs", JList [JDict [("FileInput", JStr input_s3)]]);
      ("OutputGroups", JList [JDict [
        ("Name", JStr "File Group");
        ("OutputGroupSettings", JDict [
          ("Type", JStr "FILE_GROUP_SETTINGS");
          ("FileGroupSettings", JDict [("Destination", JStr output_s3_prefix)])
        ]);
        ("Outputs", JList [
          JDict [
            ("ContainerSettings", JDict [("Container", JStr "MP4")]);
            ("VideoDescription", JDict [("Width", JInt 1280); ("Height", JInt 720)])
          ];
          JDict [
            ("ContainerSettings", JDict [("Container", JStr "MP4")]);
            ("VideoDescription", JDict [("Width", JInt 854); ("Height", JInt 480)])
          ]
        ])
      ]])
    ])
  ].

(** [submit_job]: [create_job] is the provider call ([None] when it
    raises); the result is [resp["Job"]["Id"]]. *)
Definition submit_job (create_job : json -> option json)
    (role_arn input_s3 output_s3_prefix : string) : option json :=
  match create_job (job_settings role_arn input_s3 output_s3_prefix) with
  | None => None
  | Some resp =>
      match subscript resp "Job" with
      | None => None
      | Some job => subscript job "Id"
      end
  end.

(** Readers of a job description. *)
Definition as_list (v : option json) : list json :=
  match v with Some (JList l) => l | _ => [] end.

Definition bind_sub (v : option json) (key : string) : option json :=
  match v with Some d => subscript d key | None => None end.

Definition job_inputs (job : json) : list json :=
  as_list (bind_sub (subscript job "Settings") "Inputs").

Definition job_output_groups (job : json) : list json :=
  as_list (bind_sub (subscript job "Settings") "OutputGroups").

Definition group_outputs (group : json) : list json :=
  as_list (subscript group "Outputs").

Definition job_outputs (job : json) : list json :=
  flat_map group_outputs (job_output_groups job).

(** The outputs in the words of section 4.4 of the specification: the
    [renditions] of [submit] are width-by-height pairs, and each yields
    one output that names the container and the resolution and nothing
    else.  This is what the outputs of [job_settings] are compared with. *)
Definition spec_rendition_output (r : Z * Z) : json :=
  JDict [
    ("ContainerSettings", JDict [("Container", JStr "MP4")]);
    ("VideoDescription", JDict [("Width", JInt (fst r)); ("Height", JInt (snd r))])
  ].

Definition spec_outputs (renditions : list (Z * Z)) : list json :=
  map spec_rendition_output renditions.

(** *** [poll_job] *)

(** One answer of [get_job]: [res["Job"]["Status"]] and the rest. *)
Record response : Type := mkResponse {
  job_status : string;
  job_detail : json
}.

(** The provider and the clock as [poll_job] sees them: the [n]-th answer
    of [get_job] and the time that call takes.  [time.sleep(interval)]
    advances the clock by [interval]. *)
Record provider : Type := mkProvider {
  get_job : nat -> response;
  query_time : nat -> Z
}.

Definition is_terminal (status : string) : bool :=
  String.eqb status "COMPLETE" || String.eqb status "ERROR"
  || String.eqb status "CANCELED".

(** What [poll_job] hands back, with the clock reading at the return. *)
Record poll_result : Type := mkPollResult {
  final_status : string;
  final_response : response;
  returned_at : Z
}.

(** The [while True] loop of lines 49-56.  [now] is the clock on entry to
    the iteration and [n] the number of queries made so far; [None] means
    the fuel ran out before the loop returned. *)
Fixpoint poll_loop (fuel : nat) (mc : provider) (interval timeout : Z)
    (started now : Z) (n : nat) : option poll_result :=
  match fuel with
  | O => None
  | S fuel' =>
      let res := get_job mc n in
      let now := (now + query_time mc n)%Z in
      let status := job_status res in
      if is_terminal status then Some (mkPollResult status res now)
      else if (now - started >? timeout)%Z
           then Some (mkPollResult "TIMEOUT" res now)
           else poll_loop fuel' mc interval timeout started
                          (now + interval)%Z (S n)
  end.

(** [poll_job(mc_client, job_id, interval, timeout)] entered at clock
    reading [t0]. *)
Definition poll_job (fuel : nat) (mc : provider) (interval timeout : Z)
    (t0 : Z) : option poll_result :=
  poll_loop fuel mc interval timeout t0 t0 0.

(** A job that never leaves [PROGRESSING], answered instantly. *)
Definition stuck_job : provider :=
  mkProvider (fun _ => mkResponse "PROGRESSING" JNull) (fun _ => 0%Z).

End Transcode.

(* ------------------------------------------------------------------ *)
(** ** PipelineOrchestrator: [main] and its helpers                     *)
(* ------------------------------------------------------------------ *)

Module Pipeline.
Import Json.
Local Open Scope string_scope.

(** [Config]: the values [os.getenv] gave; [None] is an unset variable. *)
Record Config : Type := mkConfig {
  DEFAULT_LEAGUE : string;
  DEFAULT_DATE : string;
  RAPIDAPI_KEY : option string;
  RAPIDAPI_HOST : string;
  METADATA_BUCKET : option string;
  VIDEOS_BUCKET : option string;
  LOGS_BUCKET : option string;
  AWS_REGION : string
}.

(** [if Config.X:] on an optional string: unset and empty are both false. *)
Definition configured (b : option string) : option string :=
  match b with
  | Some name => if String.eqb name "" then None else Some name
  | None => None
  end.

(** Exceptions, by the classes the handlers tell apart.  All of them are
    subclasses of [Exception]; [exn_text] is [str(e)]. *)
Inductive exn_class : Type :=
| ClientError | HTTPError | RuntimeError | OtherException.

Record pyexn : Type := mkExn { exn_kind : exn_class; exn_text : string }.

Definition is_ClientError (e : pyexn) : bool :=
  match exn_kind e with ClientError => true | _ => false end.

Definition is_HTTPError (e : pyexn) : bool :=
  match exn_kind e with HTTPError => true | _ => false end.

Definition is_Exception (e : pyexn) : bool := true.

(** *** The world the run acts on *)

Inductive level : Type := INFO | WARNING | ERROR.

Inductive s3_request : Type :=
| UploadFile (local_path : string)   (* [s3_client.upload_file] *)
| PutObject (body : string).         (* [s3_client.put_object] *)

(** One request to the blob store, with what became of it: [None] means
    the object was stored. *)
Record s3_call : Type := mkCall {
  call_request : s3_request;
  call_bucket : string;
  call_key : string;
  call_outcome : option pyexn
}.

Record World : Type := mkWorld {
  log_stream : list (level * string);  (* records given to [logger] *)
  s3_calls : list s3_call;             (* requests so far, oldest first *)
  clock_reads : nat                    (* calls of [datetime.now()] so far *)
}.

Definition fresh_world : World := mkWorld [] [] 0.

(** *** The answers of the outside *)

Inductive http_result : Type :=
| HttpOk (data : json)
| HttpRaises (e : pyexn).

Record Env : Type := mkEnv {
  (** [requests.get], [raise_for_status] and [response.json()] of the
      metadata API *)
  fetch_response : http_result;
  (** [tempfile.mktemp(suffix=".json")] *)
  mktemp_name : string;
  (** opening and writing the temporary file: [None] when it works *)
  tempfile_write : option pyexn;
  (** the [n]-th request to S3 of the run, client construction included:
      [None] when the object is stored *)
  s3_response : nat -> option pyexn;
  (** the draw of [random.choice] *)
  random_draw : nat;
  (** [tempfile.mkdtemp()] *)
  mkdtemp_name : string;
  mkdtemp_error : option pyexn;
  (** the streamed download: [None] when every chunk was written *)
  download_response : option pyexn;
  (** the [n]-th reading of [datetime.now()] *)
  clock : nat -> PyStr.datetime
}.

(** *** A state and exception monad for the statements of the module *)

Definition M (A : Type) : Type := World -> (A + pyexn) * World.

Definition ret {A : Type} (a : A) : M A := fun w => (inl a, w).

Definition bind {A B : Type} (m : M A) (k : A -> M B) : M B :=
  fun w => match m w with
           | (inl a, w') => k a w'
           | (inr e, w') => (inr e, w')
           end.

Definition raise {A : Type} (e : pyexn) : M A := fun w => (inr e, w).

(** [try: body except C as e: handler], [handles] being [isinstance(e, C)]. *)
Definition try_except {A : Type} (body : M A) (handles : pyexn -> bool)
    (handler : pyexn -> M A) : M A :=
  fun w => match body w with
           | (inl a, w') => (inl a, w')
           | (inr e, w') => if handles e then handler e w' else (inr e, w')
           end.

(** An operation of the outside that either works or raises. *)
Definition may_raise (r : option pyexn) : M unit :=
  match r with
  | None => ret tt
  | Some e => raise e
  end.

Declare Scope py_scope.
Delimit Scope py_scope with py.
Notation "x <- c1 ;; c2" := (bind c1 (fun x => c2))
  (at level 61, c1 at next level, right associativity) : py_scope.
Notation "c1 ;; c2" := (bind c1 (fun _ => c2))
  (at level 61, right associativity) : py_scope.
Local Open Scope py_scope.

(** [logger.info], [logger.warning], [logger.error] *)
Definition log (lvl : level) (msg : string) : M unit :=
  fun w => (inl tt, mkWorld (log_stream w ++ [(lvl, msg)])%list
                            (s3_calls w) (clock_reads w)).

Section Run.
Variable cfg : Config.
Variable env : Env.

(** One call of the S3 client; it raises what the call raises.  The
    answer is the environment's and is not tied to the request or to the
    files: it ranges over everything [boto3] can raise there.  For
    [upload_file] that includes [FileNotFoundError] when the local file
    does not exist and [S3UploadFailedError], in which [boto3] wraps a
    [ClientError] of the store, both of class [OtherException];
    [put_object] raises the [ClientError] of the store as it is.  What is
    proved for every environment therefore holds for the answers the
    calls do give; the concrete runs below are given answers that their
    calls can produce. *)
Definition s3_send (req : s3_request) (bucket key : string) : M unit :=
  fun w =>
    let answer := s3_response env (List.length (s3_calls w)) in
    let w' := mkWorld (log_stream w)
                      (s3_calls w ++ [mkCall req bucket key answer])%list
                      (clock_reads w) in
    match answer with
    | None => (inl tt, w')
    | Some e => (inr e, w')
    end.

(** [datetime.now()] *)
Definition datetime_now : M PyStr.datetime :=
  fun w => (inl (clock env (clock_reads w)),
            mkWorld (log_stream w) (s3_calls w) (S (clock_reads w))).

(** Lines 21-40.  The value returned is a Python value: the parsed
    document, or [None], which is [JNull]. *)
Definition fetch_highlights : M json :=
  let url := "https://" ++ RAPIDAPI_HOST cfg ++ "/football.league?league="
             ++ DEFAULT_LEAGUE cfg ++ "&date=" ++ DEFAULT_DATE cfg in
  log INFO ("Fetching highlights from " ++ url) ;;
  try_except
    (data <- (match fetch_response env with
              | HttpOk data => ret data
              | HttpRaises e => raise e
              end) ;;
     log INFO "Highlights fetched successfully" ;;
     ret data)
    is_Exception
    (fun e =>
       if is_HTTPError e
       then log ERROR ("HTTP error fetching highlights: " ++ exn_text e) ;;
            ret JNull
       else log ERROR ("Error fetching highlights: " ++ exn_text e) ;;
            ret JNull).

(** Lines 62-75: the destination on success, [None] on any failure. *)
Definition download_video (url dest_path : string) : M (option string) :=
  log INFO ("Downloading video " ++ url) ;;
  try_except
    (may_raise (download_response env) ;;
     log INFO ("Video downloaded to " ++ dest_path) ;;
     ret (Some dest_path))
    is_Exception
    (fun e =>
       log ERROR ("Failed to download video: " ++ exn_text e) ;;
       ret None).

(** Lines 77-83. *)
Definition upload_file_to_s3 (bucket key local_path : string) : M unit :=
  try_except
    (s3_send (UploadFile local_path) bucket key ;;
     log INFO ("Uploaded " ++ local_path ++ " to s3://" ++ bucket
               ++ "/" ++ key))
    is_ClientError
    (fun e =>
       log ERROR ("Failed to upload " ++ local_path ++ " to S3: "
                  ++ exn_text e)).

(** The key of line 92. *)
Definition log_key (t : PyStr.datetime) : string :=
  "pipeline_log_" ++ PyStr.strftime_compact t ++ ".txt".

(** Lines 85-96. *)
Definition upload_logs (log_content : string) : M unit :=
  match configured (LOGS_BUCKET cfg) with
  | None => log WARNING "LOGS_BUCKET not configured, skipping log upload"
  | Some bucket =>
      try_except
        (t <- datetime_now ;;
         let file_name := log_key t in
         s3_send (PutObject log_content) bucket file_name ;;
         log INFO ("Logs uploaded to s3://" ++ bucket ++ "/" ++ file_name))
        is_ClientError
        (fun e => log ERROR ("Failed to upload logs: " ++ exn_text e))
  end.

(** The key of line 111. *)
Definition metadata_key : string :=
  "highlights/" ++ DEFAULT_LEAGUE cfg ++ "/" ++ DEFAULT_DATE cfg
  ++ "/highlights.json".

(** The file name of line 124: [pathlib.Path(video_url).name or "video.mp4"]. *)
Definition video_filename (video_url : string) : string :=
  PyStr.str_or (PyStr.path_name video_url) "video.mp4".

(** The key of line 129. *)
Definition video_key (local_video_path : string) : string :=
  "incoming/" ++ DEFAULT_LEAGUE cfg ++ "/" ++ DEFAULT_DATE cfg ++ "/"
  ++ PyStr.path_name local_video_path.

(** The body of the [try] of lines 103-133. *)
Definition main_body : M unit :=
  (* 1) Fetch highlights *)
  highlights <- fetch_highlights ;;
  (if negb (truthy highlights)
   then raise (mkExn RuntimeError "No highlights fetched from API")
   else ret tt) ;;
  (* 2) Save highlights JSON to S3 *)
  (match configured (METADATA_BUCKET cfg) with
   | Some bucket =>
       let s3_key := metadata_key in
       let upload_file_path := mktemp_name env in
       may_raise (tempfile_write env) ;;
       upload_file_to_s3 bucket s3_key upload_file_path
   | None => ret tt
   end) ;;
  (* 3) Pick random video URL *)
  let video_url :=
    Selector.pick_random_video_from_json highlights (random_draw env) in
  match video_url with
  | None => raise (mkExn RuntimeError "No video URL found in highlights")
  | Some video_url =>
      (if String.eqb video_url ""
       then raise (mkExn RuntimeError "No video URL found in highlights")
       else ret tt) ;;
      (* 4) Download video *)
      may_raise (mkdtemp_error env) ;;
      let tmpdir := mkdtemp_name env in
      let local_video_path :=
        PyStr.path_join tmpdir (video_filename video_url) in
      _ <- download_video video_url local_video_path ;;
      (* 5) Upload video to S3 *)
      (match configured (VIDEOS_BUCKET cfg) with
       | Some bucket =>
           let s3_video_key := video_key local_video_path in
           upload_file_to_s3 bucket s3_video_key local_video_path
       | None => ret tt
       end) ;;
      log INFO "Pipeline completed successfully" ;;
      upload_logs "Pipeline completed successfully"
  end.

(** Lines 100-137. *)
Definition main : M unit :=
  log INFO ("Starting pipeline for " ++ DEFAULT_LEAGUE cfg ++ " "
            ++ DEFAULT_DATE cfg) ;;
  try_except main_body is_Exception
    (fun e =>
       log ERROR ("Pipeline failed: " ++ exn_text e) ;;
       upload_logs ("Pipeline failed: " ++ exn_text e)).

(** One run of the entry point from a fresh process. *)
Definition run : (unit + pyexn) * World := main fresh_world.

End Run.

(** *** What a run leaves behind *)

Definition is_put (c : s3_call) : bool :=
  match call_request c with PutObject _ => true | UploadFile _ => false end.

(** The requests that write a log object. *)
Definition log_writes (w : World) : list s3_call :=
  filter is_put (s3_calls w).

(** The objects that were stored. *)
Definition stored (w : World) : list s3_call :=
  filter (fun c => match call_outcome c with None => true | Some _ => false end)
         (s3_calls w).

(** The keys of the requests, oldest first. *)
Definition keys_written (w : World) : list string :=
  map call_key (s3_calls w).

Definition returned_normally (r : (unit + pyexn) * World) : bool :=
  match fst r with inl _ => true | inr _ => false end.

(** The messages given to [logger] at a level. *)
Definition messages_at (lvl : level) (w : World) : list string :=
  flat_map (fun r => match fst r, lvl with
                     | INFO, INFO | WARNING, WARNING | ERROR, ERROR => [snd r]
                     | _, _ => []
                     end) (log_stream w).

(** The bodies of the log objects requested. *)
Definition log_bodies (w : World) : list string :=
  flat_map (fun c => match call_request c with
                     | PutObject body => [body]
                     | UploadFile _ => []
                     end) (s3_calls w).

(** How the run ended, as the summary lines of [main] tell: the record
    of line 132 is a success, the record of line 136 a failure with its
    reason. *)
Inductive run_status : Type :=
| SUCCESS
| FAILURE (reason : string).

Definition summary_of (r : level * string) : list run_status :=
  match r with
  | (INFO, m) =>
      if String.eqb m "Pipeline completed successfully" then [SUCCESS] else []
  | (ERROR, m) =>
      if PyStr.startswith "Pipeline failed: " m
      then [FAILURE (String.substring 17 (String.length m - 17) m)]
      else []
  | (WARNING, _) => []
  end.

Definition reported_status (w : World) : option run_status :=
  List.last (map Some (flat_map summary_of (log_stream w))) None.


(** The key layout of section 6, for one request of a run: an uploaded
    file goes to the metadata bucket under the metadata key, or to the
    video bucket under the key that ends in the file name of the selected
    URL; a put goes to the log bucket under a stamped log key. *)
Definition follows_layout (cfg : Config) (env : Env) (c : s3_call) : Prop :=
  match call_request c with
  | UploadFile _ =>
      (configured (METADATA_BUCKET cfg) = Some (call_bucket c)
       /\ call_key c = "highlights/" ++ DEFAULT_LEAGUE cfg ++ "/"
                       ++ DEFAULT_DATE cfg ++ "/highlights.json")
      \/ (configured (VIDEOS_BUCKET cfg) = Some (call_bucket c)
          /\ exists doc url,
               fetch_response env = HttpOk doc
               /\ Selector.pick_random_video_from_json doc (random_draw env)
                  = Some url
               /\ call_key c = "incoming/" ++ DEFAULT_LEAGUE cfg ++ "/"
                               ++ DEFAULT_DATE cfg ++ "/"
                               ++ PyStr.str_or (PyStr.path_name url)
                                               "video.mp4")
  | PutObject _ =>
      configured (LOGS_BUCKET cfg) = Some (call_bucket c)
      /\ exists stamp,
           call_key c = "pipeline_log_" ++ stamp ++ ".txt"
           /\ PyStr.is_compact_stamp stamp = true
  end.

(** Two environments that answer alike: the same remote responses and the
    same local failures; the names of the temporary file and directory
    are free. *)
Definition same_responses (e1 e2 : Env) : Prop :=
  fetch_response e1 = fetch_response e2
  /\ tempfile_write e1 = tempfile_write e2
  /\ (forall n, s3_response e1 n = s3_response e2 n)
  /\ mkdtemp_error e1 = mkdtemp_error e2
  /\ download_response e1 = download_response e2.

Definition with_fetch (env : Env) (r : http_result) : Env :=
  mkEnv r (mktemp_name env) (tempfile_write env) (s3_response env)
        (random_draw env) (mkdtemp_name env) (mkdtemp_error env)
        (download_response env) (clock env).

(** *** Concrete runs *)

Definition cfg_demo : Config :=
  mkConfig "Superettan" "2025-01-15" (Some "key")
           "sport-highlights-api.p.rapidapi.com"
           (Some "meta-bucket") (Some "video-bucket") (Some "log-bucket")
           "ap-south-1".

Definition cfg_no_video_bucket : Config :=
  mkConfig "Superettan" "2025-01-15" (Some "key")
           "sport-highlights-api.p.rapidapi.com"
           (Some "meta-bucket") None (Some "log-bucket") "ap-south-1".

Definition noon : PyStr.datetime := PyStr.mkDatetime 2025 1 15 12 0 0.
Definition noon_and_a_second : PyStr.datetime :=
  PyStr.mkDatetime 2025 1 15 12 0 1.

(** Every call of the outside works; the document is the scenario of
    section 8. *)
Definition env_fine : Env :=
  mkEnv (HttpOk Selector.doc_two_events) "/tmp/tmpq1w2e3.json" None
        (fun _ => None) 0 "/tmp/tmpa8s9d0" None None (fun _ => noon).

(** The same answers one second later. *)
Definition env_fine_later : Env :=
  mkEnv (HttpOk Selector.doc_two_events) "/tmp/tmpq1w2e3.json" None
        (fun _ => None) 0 "/tmp/tmpa8s9d0" None None
        (fun _ => noon_and_a_second).

(** The same answers with other temporary names. *)
Definition env_fine_other_names : Env :=
  mkEnv (HttpOk Selector.doc_two_events) "/var/tmp/tmpzx81.json" None
        (fun _ => None) 0 "/var/tmp/tmpk3j4/" None None (fun _ => noon).

(** The same answers with another draw of [random.choice]. *)
Definition env_fine_other_draw : Env :=
  mkEnv (HttpOk Selector.doc_two_events) "/tmp/tmpq1w2e3.json" None
        (fun _ => None) 1 "/tmp/tmpa8s9d0" None None (fun _ => noon).

(** The network is down: the API cannot be reached and neither can S3,
    which [botocore] reports with an [EndpointConnectionError], not a
    [ClientError]. *)
Definition unreachable : pyexn :=
  mkExn OtherException "Could not connect to the endpoint URL".

Definition env_network_down : Env :=
  mkEnv (HttpRaises (mkExn OtherException "Connection refused"))
        "/tmp/tmpq1w2e3.json" None (fun _ => Some unreachable) 0
        "/tmp/tmpa8s9d0" None None (fun _ => noon).

(** Everything works but the first log upload, the third request. *)
Definition env_log_upload_hiccup : Env :=
  mkEnv (HttpOk Selector.doc_two_events) "/tmp/tmpq1w2e3.json" None
        (fun n => if Nat.eqb n 2 then Some unreachable else None) 0
        "/tmp/tmpa8s9d0" None None (fun _ => noon).

(** The API answers with an empty object. *)
Definition env_empty_document : Env :=
  mkEnv (HttpOk (JDict [])) "/tmp/tmpq1w2e3.json" None
        (fun _ => None) 0 "/tmp/tmpa8s9d0" None None (fun _ => noon).

(** The download fails with the 404 that [raise_for_status] raises, so
    that the destination is never opened; everything else works.  For a
    configuration without a video bucket, in which nothing reads the
    missing file. *)
Definition env_download_fails : Env :=
  mkEnv (HttpOk Selector.doc_two_events) "/tmp/tmpq1w2e3.json" None
        (fun _ => None) 0 "/tmp/tmpa8s9d0" None
        (Some (mkExn HTTPError "404 Client Error: Not Found"))
        (fun _ => noon).

End Pipeline.

(* ------------------------------------------------------------------ *)
(** ** [app/logger.py]: the buffering logger                            *)
(* ------------------------------------------------------------------ *)

Module Logger.
Local Open Scope string_scope.

Definition newline : string := String (ascii_of_nat 10) "".

(** [PipelineLogger]: the [StringIO] buffer. *)
Record PipelineLogger : Type := mkLogger { buf : string }.

Definition new_logger : PipelineLogger := mkLogger "".

(** [info(msg)] and [error(msg)]; [stamp] is what [time.strftime] gives
    at the call. *)
Definition info (stamp msg : string) (l : PipelineLogger) : PipelineLogger :=
  mkLogger (buf l ++ stamp ++ " INFO: " ++ msg ++ newline).

Definition error (stamp msg : string) (l : PipelineLogger) : PipelineLogger :=
  mkLogger (buf l ++ stamp ++ " ERROR: " ++ msg ++ newline).

(** [get_bytes()] *)
Definition get_bytes (l : PipelineLogger) : string := buf l.

(** A call of the logger and the line it writes. *)
Inductive call : Type :=
| CallInfo (stamp msg : string)
| CallError (stamp msg : string).

Definition apply_call (l : PipelineLogger) (c : call) : PipelineLogger :=
  match c with
  | CallInfo stamp msg => info stamp msg l
  | CallError stamp msg => error stamp msg l
  end.

Definition line_of (c : call) : string :=
  match c with
  | CallInfo stamp msg => stamp ++ " INFO: " ++ msg ++ newline
  | CallError stamp msg => stamp ++ " ERROR: " ++ msg ++ newline
  end.

End Logger.

(* ------------------------------------------------------------------ *)
(** ** More of the code: helpers for the properties beyond the design
       specification                                                     *)
(* ------------------------------------------------------------------ *)

Module SelectorMore.
Import Json Selector.

(** The same document under other key names. *)
Fixpoint rename_keys (f : string -> string) (doc : json) : json :=
  match doc with
  | JDict items =>
      JDict (map (fun kv => (f (fst kv), rename_keys f (snd kv))) items)
  | JList its => JList (map (rename_keys f) its)
  | _ => doc
  end.

End SelectorMore.

Module TranscodeMore.
Import Json Transcode.

(** A job that completes at its third answer. *)
Definition done_at_third : provider :=
  mkProvider (fun n => if Nat.leb 2 n
                       then mkResponse "COMPLETE" JNull
                       else mkResponse "PROGRESSING" JNull)
             (fun _ => 0%Z).

End TranscodeMore.

(** *** [download_video] with the file it writes (lines 62-75) *)

Module Download.
Import Pipeline.
Local Open Scope string_scope.

(** The local files: the content at a path, if there is a file. *)
Definition FileSystem : Type := string -> option string.

Definition write_file (fs : FileSystem) (path content : string)
  : FileSystem :=
  fun p => if String.eqb p path then Some content else fs p.

(** One exchange with the video host, in the order the code meets it:
    [requests.get] may raise, [raise_for_status] may raise, [open] may
    raise, then [iter_content] yields [chunks] and either ends or raises
    ([stream_error], which also stands for a failing [write]). *)
Record exchange : Type := mkExchange {
  get_error : option pyexn;
  status_error : option pyexn;
  open_error : option pyexn;
  chunks : list string;
  stream_error : option pyexn
}.

(** The loop of lines 68-70: [if chunk: fh.write(chunk)]. *)
Definition write_chunks (written : string) (cs : list string) : string :=
  fold_left (fun written chunk =>
               if String.eqb chunk "" then written else written ++ chunk)
            cs written.

(** The bytes of a list of chunks, one after the other. *)
Definition body_of (cs : list string) : string :=
  fold_right String.append "" cs.

Definition failed (url : string) (e : pyexn) (fs : FileSystem)
  : option string * FileSystem * list (level * string) :=
  (None, fs,
   [(INFO, "Downloading video " ++ url);
    (ERROR, "Failed to download video: " ++ exn_text e)]).

(** [download_video(url, dest_path)]: the value returned, the files
    afterwards and the records given to the logger.  [open(dest_path,
    "wb")] creates or empties the file before the first chunk. *)
Definition download_video (ex : exchange) (url dest_path : string)
    (fs : FileSystem) : option string * FileSystem * list (level * string) :=
  match get_error ex with
  | Some e => failed url e fs
  | None =>
      match status_error ex with
      | Some e => failed url e fs
      | None =>
          match open_error ex with
          | Some e => failed url e fs
          | None =>
              let fs' :=
                write_file fs dest_path (write_chunks "" (chunks ex)) in
              match stream_error ex with
              | Some e => failed url e fs'
              | None =>
                  (Some dest_path, fs',
                   [(INFO, "Downloading video " ++ url);
                    (INFO, "Video downloaded to " ++ dest_path)])
              end
          end
      end
  end.

(** The exception that ends the exchange, if any: what the environment
    of [Pipeline] calls [download_response]. *)
Definition first_error (ex : exchange) : option pyexn :=
  match get_error ex with
  | Some e => Some e
  | None =>
      match status_error ex with
      | Some e => Some e
      | None =>
          match open_error ex with
          | Some e => Some e
          | None => stream_error ex
          end
      end
  end.

Definition with_download (env : Env) (r : option pyexn) : Env :=
  mkEnv (fetch_response env) (mktemp_name env) (tempfile_write env)
        (s3_response env) (random_draw env) (mkdtemp_name env)
        (mkdtemp_error env) r (clock env).

(** A body delivered in three chunks, the second one empty, with a file
    already at the destination. *)
Definition three_chunks : exchange :=
  mkExchange None None None ["abc"; ""; "de"] None.

Definition old_file : FileSystem :=
  fun p => if String.eqb p "/tmp/v/a.mp4" then Some "old" else None.

End Download.

(** *** Other environments and configurations for [main] *)

Module PipelineMore.
Import Json Pipeline.
Local Open Scope string_scope.

(** The requests of a run that upload a file. *)
Definition file_uploads (w : World) : list s3_call :=
  filter (fun c => negb (is_put c)) (s3_calls w).

(** The summary lines among the records given to the logger. *)
Definition summaries (w : World) : list run_status :=
  flat_map summary_of (log_stream w).

(** Two worlds with the same requests and answers, the same clock, and
    the same summary lines. *)
Definition same_but_log (w1 w2 : World) : Prop :=
  s3_calls w1 = s3_calls w2
  /\ clock_reads w1 = clock_reads w2
  /\ summaries w1 = summaries w2.

(** Two computations that, from related worlds, end alike in related
    worlds. *)
Definition sim (R : World -> World -> Prop) {A : Type} (m1 m2 : M A) : Prop :=
  forall w1 w2, R w1 w2 ->
    fst (m1 w1) = fst (m2 w2) /\ R (snd (m1 w1)) (snd (m2 w2)).

(** Two computations that, from related worlds, both return, with
    whatever value, in related worlds. *)
Definition sim_returns (R : World -> World -> Prop) {A B : Type}
    (m1 : M A) (m2 : M B) : Prop :=
  forall w1 w2, R w1 w2 ->
    (exists a, fst (m1 w1) = inl a)
    /\ (exists b, fst (m2 w2) = inl b)
    /\ R (snd (m1 w1)) (snd (m2 w2)).

Definition add_log (w : World) (r : level * string) : World :=
  mkWorld (log_stream w ++ [r])%list (s3_calls w) (clock_reads w).

Definition add_call (w : World) (c : s3_call) : World :=
  mkWorld (log_stream w) (s3_calls w ++ [c])%list (clock_reads w).

Definition tick (w : World) : World :=
  mkWorld (log_stream w) (s3_calls w) (S (clock_reads w)).

Definition cfg_no_log_bucket : Config :=
  mkConfig "Superettan" "2025-01-15" (Some "key")
           "sport-highlights-api.p.rapidapi.com"
           (Some "meta-bucket") (Some "video-bucket") None "ap-south-1".

(** The upload of the video, the second request, fails in the transfer:
    [boto3] raises [S3UploadFailedError], which is no [ClientError]. *)
Definition upload_failed : pyexn :=
  mkExn OtherException "Failed to upload /tmp/tmpa8s9d0/a.mp4".

Definition env_video_upload_breaks : Env :=
  mkEnv (HttpOk Selector.doc_two_events) "/tmp/tmpq1w2e3.json" None
        (fun n => if Nat.eqb n 1 then Some upload_failed else None) 0
        "/tmp/tmpa8s9d0" None None (fun _ => noon).

(** Everything works but the upload of the log, the third request, which
    the store refuses: [put_object] raises the [ClientError]. *)
Definition log_refused : pyexn :=
  mkExn ClientError
        "An error occurred (AccessDenied) when calling the PutObject operation: Access Denied".

Definition env_log_refused : Env :=
  mkEnv (HttpOk Selector.doc_two_events) "/tmp/tmpq1w2e3.json" None
        (fun n => if Nat.eqb n 2 then Some log_refused else None) 0
        "/tmp/tmpa8s9d0" None None (fun _ => noon).

(** A document with content and no video URL. *)
Definition doc_without_url : json :=
  JDict [("events", JList [JDict [("title", JStr "Goal"); ("minute", JInt 12)]])].

Definition env_no_url : Env :=
  mkEnv (HttpOk doc_without_url) "/tmp/tmpq1w2e3.json" None
        (fun _ => None) 0 "/tmp/tmpa8s9d0" None None (fun _ => noon).

End PipelineMore.

(** *** [app/s3_utils.py]: [list_objects] (lines 16-23) *)

Module S3Utils.
Import Json.
Local Open Scope string_scope.

(** [page.get("Contents", [])]; [None] when [page] is no [dict]. *)
Definition page_contents (page : json) : option json :=
  match page with
  | JDict _ =>
      match Transcode.subscript page "Contents" with
      | Some v => Some v
      | None => Some (JList [])
      end
  | _ => None
  end.

(** [[o["Key"] for o in contents]], [None] as soon as one subscript
    raises. *)
Fixpoint keys_of (contents : list json) : option (list json) :=
  match contents with
  | [] => Some []
  | o :: rest =>
      match Transcode.subscript o "Key", keys_of rest with
      | Some k, Some ks => Some (k :: ks)
      | _, _ => None
      end
  end.

(** The inner loop of lines 21-22 for one page.  Iterating over an empty
    [dict] or an empty [str] does nothing; any other value that is no
    list raises, at the iteration or at [o["Key"]]. *)
Definition page_keys (page : json) : option (list json) :=
  match page_contents page with
  | Some (JList contents) => keys_of contents
  | Some (JDict []) => Some []
  | Some (JStr EmptyString) => Some []
  | _ => None
  end.

(** [list_objects(bucket, prefix, region)] on the pages the paginator
    yields; [None] when the function raises. *)
Definition list_objects (pages : list json) : option (list json) :=
  fold_left (fun objs page =>
               match objs with
               | None => None
               | Some objs =>
                   match page_keys page with
                   | Some ks => Some (objs ++ ks)%list
                   | None => None
                   end
               end)
            pages (Some []).

(** Two results put together: the keys of both, or the exception. *)
Definition glue (a b : option (list json)) : option (list json) :=
  match a, b with
  | Some x, Some y => Some (x ++ y)%list
  | _, _ => None
  end.

(** A page as S3 gives it: objects with a key each. *)
Definition page_of (keys : list string) : json :=
  JDict [("KeyCount", JInt (Z.of_nat (List.length keys)));
         ("Contents", JList (map (fun k => JDict [("Key", JStr k);
                                                  ("Size", JInt 0)]) keys))].

(** A page of an empty listing: no [Contents] at all. *)
Definition empty_page : json := JDict [("KeyCount", JInt 0)].

End S3Utils.

(** *** [app/config.py]: the settings read from the process environment *)

Module ConfigLoad.
Import Pipeline.
Local Open Scope string_scope.

(** [os.getenv(name, default)]: the default only when the variable is
    unset; a variable set to the empty string is the empty string. *)
Definition getenv_or (environ : string -> option string)
    (name default : string) : string :=
  match environ name with
  | Some v => v
  | None => default
  end.

(** [t.strftime("%Y-%m-%d")] *)
Definition strftime_date (t : PyStr.datetime) : string :=
  PyStr.pad4 (PyStr.year t) ++ "-" ++ PyStr.pad2 (PyStr.month t) ++ "-"
  ++ PyStr.pad2 (PyStr.day t).

(** The attributes of [class Config] that [Pipeline.Config] does not
    hold. *)
Record Settings : Type := mkSettings {
  base : Config;
  MEDIACONVERT_ROLE_ARN : option string;
  SNS_TOPIC_ARN : option string;
  LOG_LEVEL : string;
  HIGHLIGHTS_URL : string
}.

(** The body of [class Config] (lines 9-31), evaluated once at import
    with the clock reading [today]; [environ] is the process environment
    as [load_dotenv] has left it. *)
Definition load_config (environ : string -> option string)
    (today : PyStr.datetime) : Settings :=
  let league := getenv_or environ "DEFAULT_LEAGUE" "Superettan" in
  let date := getenv_or environ "DEFAULT_DATE" (strftime_date today) in
  let host := getenv_or environ "RAPIDAPI_HOST"
                        "sport-highlights-api.p.rapidapi.com" in
  mkSettings
    (mkConfig league date (environ "RAPIDAPI_KEY") host
              (environ "METADATA_BUCKET") (environ "VIDEOS_BUCKET")
              (environ "LOGS_BUCKET")
              (getenv_or environ "AWS_REGION" "ap-south-1"))
    (environ "MEDIACONVERT_ROLE_ARN")
    (environ "SNS_TOPIC_ARN")
    (getenv_or environ "LOG_LEVEL" "INFO")
    ("https://" ++ host ++ "/highlights?league=" ++ league ++ "&date=" ++ date).

(** The URL that [fetch_highlights] of [pipeline.py] requests (line 23). *)
Definition fetch_url (cfg : Config) : string :=
  "https://" ++ RAPIDAPI_HOST cfg ++ "/football.league?league="
  ++ DEFAULT_LEAGUE cfg ++ "&date=" ++ DEFAULT_DATE cfg.

(** An environment in which only the three buckets are set, the log
    bucket to the empty string. *)
Definition environ_empty_log_bucket (name : string) : option string :=
  if String.eqb name "METADATA_BUCKET" then Some "meta-bucket"
  else if String.eqb name "VIDEOS_BUCKET" then Some "video-bucket"
  else if String.eqb name "LOGS_BUCKET" then Some ""
  else None.

End ConfigLoad.

(** *** [app/logger.py]: the handlers of the logger named "pipeline" *)

Module LoggerInit.
Import Logger.

(** What [logging.getLogger("pipeline")] keeps between the
    constructions of [PipelineLogger]: the handlers attached to that one
    logger, by the number of each handler object, and its level. *)
Record registry : Type := mkRegistry {
  handlers : list nat;
  level_is_info : bool
}.

(** [PipelineLogger.__init__] (lines 7-14), [fresh] being the new
    [StreamHandler]: it is attached only to a logger without handlers.
    The new object starts with an empty buffer of its own. *)
Definition init (fresh : nat) (r : registry) : registry * PipelineLogger :=
  (mkRegistry (match handlers r with
               | [] => [fresh]
               | _ => handlers r
               end) true,
   new_logger).

(** Constructing one [PipelineLogger] after another. *)
Definition init_all (fresh : list nat) (r : registry)
  : registry * list PipelineLogger :=
  fold_left (fun acc h => let '(reg, ls) := acc in
                          let '(reg', l) := init h reg in
                          (reg', ls ++ [l])%list)
            fresh (r, []).

End LoggerInit.

(* ================================================================== *)
(** * Properties                                                        *)
(* ================================================================== *)

(* ------------------------------------------------------------------ *)
(** ** Strings, paths and time stamps                                   *)
(* ------------------------------------------------------------------ *)

Module PyStrFacts.
Import PyStr.
Local Open Scope string_scope.

Lemma endswith_app (suf s : string) :
  endswith suf s = true -> exists a, s = a ++ suf.
Proof.
  induction s as [|c r IH]; cbn [endswith]; intros H.
  - rewrite orb_false_r in H. apply String.eqb_eq in H. subst suf.
    now exists "".
  - apply orb_true_iff in H. destruct H as [H|H].
    + apply String.eqb_eq in H. exists "". now rewrite H.
    + destruct (IH H) as [a ->]. now exists (String c a).
Qed.

Lemma split_not_nil (sep : ascii) (s : string) : split sep s <> [].
Proof.
  destruct s as [|c r]; simpl; [discriminate|].
  destruct (Ascii.eqb c sep); [discriminate|].
  destruct (split sep r); discriminate.
Qed.

Lemma split_without_sep (sep : ascii) (s : string) :
  mem_char sep s = false -> split sep s = [s].
Proof.
  induction s as [|c r IH]; simpl; intros H; [reflexivity|].
  apply orb_false_iff in H. destruct H as [Hc Hr].
  rewrite Hc, (IH Hr). reflexivity.
Qed.

Lemma split_at_sep (sep : ascii) (a b : string) :
  split sep (a ++ String sep b) = (split sep a ++ split sep b)%list.
Proof.
  induction a as [|c r IH]; simpl.
  - now rewrite Ascii.eqb_refl.
  - destruct (Ascii.eqb c sep); [now rewrite IH|].
    rewrite IH. pose proof (split_not_nil sep r) as Hne.
    destruct (split sep r); [contradiction|reflexivity].
Qed.

Lemma split_parts_without_sep (sep : ascii) (s x : string) :
  In x (split sep s) -> mem_char sep x = false.
Proof.
  revert x. induction s as [|c r IH]; simpl; intros x H.
  - destruct H as [<-|[]]. reflexivity.
  - destruct (Ascii.eqb c sep) eqn:Hc.
    + destruct H as [<-|H]; [reflexivity|auto].
    + pose proof (split_not_nil sep r) as Hne.
      destruct (split sep r) as [|h t]; [contradiction|].
      destruct H as [<-|H].
      * simpl. rewrite Hc. apply IH. now left.
      * apply IH. now right.
Qed.

Lemma last_in {A : Type} (l : list A) (d : A) : l <> [] -> In (last l d) l.
Proof.
  induction l as [|x [|y r] IH]; intros H; [contradiction| now left |].
  right. apply IH. discriminate.
Qed.

Lemma last_snoc {A : Type} (l : list A) (x d : A) :
  last (l ++ [x])%list d = x.
Proof.
  induction l as [|y [|z r] IH]; try reflexivity. exact IH.
Qed.

(** A name given by [pathlib] is empty, or a kept part without a slash. *)
Lemma path_name_shape (p : string) :
  path_name p = ""
  \/ (kept_part (path_name p) = true /\ mem_char slash (path_name p) = false).
Proof.
  unfold path_name.
  destruct (filter kept_part (split slash p)) as [|x l] eqn:E; [now left|].
  right.
  assert (Hin : In (last (x :: l) "") (filter kept_part (split slash p))).
  { rewrite E. apply last_in. discriminate. }
  apply filter_In in Hin. destruct Hin as [Hin Hk]. split; [exact Hk|].
  eapply split_parts_without_sep; eassumption.
Qed.

Lemma path_name_of_part (n : string) :
  kept_part n = true -> mem_char slash n = false -> path_name n = n.
Proof.
  intros Hk Hs. unfold path_name.
  rewrite (split_without_sep _ _ Hs). simpl. now rewrite Hk.
Qed.

Lemma path_name_after_slash (a n : string) :
  kept_part n = true -> mem_char slash n = false ->
  path_name (a ++ String slash n) = n.
Proof.
  intros Hk Hs. unfold path_name.
  rewrite split_at_sep, (split_without_sep _ _ Hs), filter_app. simpl.
  rewrite Hk. apply last_snoc.
Qed.

Lemma append_assoc (a b c : string) : (a ++ b) ++ c = a ++ (b ++ c).
Proof. induction a as [|x a IH]; simpl; [reflexivity|now rewrite IH]. Qed.

(** [Path(os.path.join(d, n)).name == n] for a name [n]. *)
Lemma path_name_join (d n : string) :
  kept_part n = true -> mem_char slash n = false ->
  path_name (path_join d n) = n.
Proof.
  intros Hk Hs. unfold path_join.
  assert (Hstart : startswith "/" n = false).
  { destruct n as [|c r]; [reflexivity|]. simpl in Hs.
    apply orb_false_iff in Hs. destruct Hs as [Hc _].
    unfold startswith. cbn [String.prefix].
    destruct (ascii_dec "/" c) as [Heq|Hne]; [|reflexivity].
    subst c. discriminate Hc. }
  rewrite Hstart.
  destruct (String.eqb d "") eqn:Hd; simpl.
  - apply String.eqb_eq in Hd. subst d. simpl. now apply path_name_of_part.
  - destruct (endswith "/" d) eqn:He.
    + destruct (endswith_app _ _ He) as [a ->].
      rewrite append_assoc. simpl. now apply path_name_after_slash.
    + now apply path_name_after_slash.
Qed.

Lemma digit_is_digit (d : N) : (d < 10)%N -> is_digit (digit d) = true.
Proof.
  intros H.
  assert (E : (d = 0 \/ d = 1 \/ d = 2 \/ d = 3 \/ d = 4 \/ d = 5 \/ d = 6
               \/ d = 7 \/ d = 8 \/ d = 9)%N) by lia.
  repeat (destruct E as [->|E]; [reflexivity|]). now subst d.
Qed.

Ltac decimal_digit :=
  first [ apply N.mod_lt; discriminate
        | apply N.Div0.div_lt_upper_bound;
          first [ lia | change 100%N with (10 * 10)%N; apply N.mod_lt; discriminate
                | apply N.mod_lt; discriminate ] ].

(** The stamp of a valid clock reading has the shape [YYYYMMDD_HHMMSS]. *)
Lemma strftime_compact_shape (t : datetime) :
  valid_datetime t = true -> is_compact_stamp (strftime_compact t) = true.
Proof.
  destruct t as [y mo d h mi s]. unfold valid_datetime. simpl.
  rewrite !andb_true_iff, !N.leb_le. intros H.
  unfold is_compact_stamp, strftime_compact, pad4, pad2. simpl.
  rewrite !digit_is_digit by decimal_digit. reflexivity.
Qed.

End PyStrFacts.

(* ------------------------------------------------------------------ *)
(** ** The buffering logger                                             *)
(* ------------------------------------------------------------------ *)

Module LoggerFacts.
Import Logger.
Local Open Scope string_scope.

(** The buffer of [PipelineLogger] holds one line for every call, in the
    order of the calls. *)
Lemma buffer_holds_every_call_in_order (calls : list call) :
  get_bytes (fold_left apply_call calls new_logger)
  = fold_right (fun c acc => line_of c ++ acc) "" calls.
Proof.
  assert (H : forall l,
             get_bytes (fold_left apply_call calls l)
             = buf l ++ fold_right (fun c acc => line_of c ++ acc) "" calls).
  { induction calls as [|c r IH]; intros l; simpl.
    - unfold get_bytes. induction (buf l) as [|x b IHb]; simpl;
        [reflexivity|now rewrite <- IHb].
    - rewrite IH. destruct c; simpl;
        now rewrite PyStrFacts.append_assoc. }
  apply (H new_logger).
Qed.

End LoggerFacts.

(* ------------------------------------------------------------------ *)
(** ** VideoSelector                                                    *)
(* ------------------------------------------------------------------ *)

Module SelectorFacts.
Import Json Selector.

(** *** Loops that only append *)

Lemma fold_left_appending {A B : Type} (f : list B -> A -> list B)
    (l : list A) :
  Forall (fun x => forall acc, f acc x = acc ++ f [] x) l ->
  forall acc, fold_left f l acc = acc ++ flat_map (f []) l.
Proof.
  induction 1 as [|x r Hx _ IH]; intros acc; simpl.
  - now rewrite app_nil_r.
  - rewrite IH, Hx, <- app_assoc. reflexivity.
Qed.

Lemma walk_appends_only (obj : json) :
  forall candidates, walk obj candidates = candidates ++ walk obj [].
Proof.
  induction obj as [| | | | |l IH|l IH] using json_rect'; intros acc;
    try (simpl; now rewrite app_nil_r).
  - cbn [walk].
    rewrite (fold_left_appending _ l IH acc).
    rewrite (fold_left_appending _ l IH []). reflexivity.
  - cbn [walk].
    assert (H : Forall (fun x : string * json =>
               forall acc,
                 (let '(_, v) := x in
                  match v with
                  | JStr s => if qualifies s then acc ++ [s] else walk v acc
                  | _ => walk v acc
                  end) =
                 acc ++ (let '(_, v) := x in
                  match v with
                  | JStr s => if qualifies s then [] ++ [s] else walk v []
                  | _ => walk v []
                  end)) l).
    { eapply Forall_impl; [|exact IH]. intros [k v] Hv acc'. simpl in Hv.
      destruct v; try apply Hv. destruct (qualifies s); [reflexivity|apply Hv]. }
    rewrite (fold_left_appending _ l H acc).
    rewrite (fold_left_appending _ l H []). reflexivity.
Qed.

Lemma walk_list (its : list json) :
  walk (JList its) [] = flat_map (fun it => walk it []) its.
Proof.
  cbn [walk]. rewrite fold_left_appending; [reflexivity|].
  apply Forall_forall. intros x _ acc. apply walk_appends_only.
Qed.

Lemma walk_dict (items : list (string * json)) :
  walk (JDict items) [] = flat_map item_candidates items.
Proof.
  cbn [walk]. rewrite fold_left_appending.
  - simpl. apply flat_map_ext. intros [k v]. unfold item_candidates. simpl.
    destruct v; reflexivity.
  - apply Forall_forall. intros [k v] _ acc.
    destruct v; try apply walk_appends_only.
    destruct (qualifies s); [reflexivity|apply walk_appends_only].
Qed.

Lemma flat_map_ext_in {A B : Type} (f g : A -> list B) (l : list A) :
  (forall a, In a l -> f a = g a) -> flat_map f l = flat_map g l.
Proof.
  induction l as [|x r IH]; intros H; [reflexivity|]. simpl.
  rewrite (H x) by now left. f_equal. apply IH. intros; apply H. now right.
Qed.

(** *** The candidates against the qualifying set of the specification *)

Lemma walk_sound (doc : json) (s : string) :
  In s (walk doc []) -> In s (spec_qualifying_strings doc).
Proof.
  revert s.
  induction doc as [| | | | |l IH|l IH] using json_rect'; intros s0 H;
    try (now destruct H).
  - rewrite walk_list in H. cbn [spec_qualifying_strings].
    apply in_flat_map in H. destruct H as [x [Hx Hs]].
    apply in_flat_map. exists x. split; [exact Hx|].
    rewrite Forall_forall in IH. now apply IH.
  - rewrite walk_dict in H. cbn [spec_qualifying_strings].
    apply in_flat_map in H. destruct H as [[k v] [Hx Hs]].
    apply in_flat_map. exists (k, v). split; [exact Hx|].
    rewrite Forall_forall in IH. specialize (IH _ Hx). simpl in IH.
    unfold item_candidates in Hs. simpl in *.
    destruct v; try (now apply IH).
    destruct (qualifies s) eqn:Hq; [|now apply IH].
    simpl. now rewrite Hq.
Qed.

Lemma walk_complete_under_maps (doc : json) :
  strings_under_maps doc = true ->
  walk doc [] = spec_qualifying_strings doc.
Proof.
  induction doc as [| | | | |l IH|l IH] using json_rect'; intros H;
    try reflexivity; try discriminate H.
  - rewrite walk_list. cbn [spec_qualifying_strings].
    cbn [strings_under_maps] in H. rewrite forallb_forall in H.
    rewrite Forall_forall in IH.
    apply flat_map_ext_in. intros x Hx. apply IH; auto.
  - rewrite walk_dict. cbn [spec_qualifying_strings].
    cbn [strings_under_maps] in H. rewrite forallb_forall in H.
    rewrite Forall_forall in IH.
    apply flat_map_ext_in. intros [k v] Hx.
    specialize (H _ Hx). specialize (IH _ Hx). simpl in H, IH.
    unfold item_candidates. simpl.
    destruct v; try (now apply IH). cbn. now destruct (qualifies s).
Qed.

(** *** The draw *)

Lemma random_choice_member (draw : nat) (seq : list string) (s : string) :
  random_choice draw seq = Some s -> In s seq.
Proof.
  unfold random_choice. destruct seq as [|x r]; [discriminate|].
  apply nth_error_In.
Qed.

Lemma random_choice_reaches (seq : list string) (s : string) :
  In s seq -> exists draw, random_choice draw seq = Some s.
Proof.
  intros H. destruct (In_nth_error _ _ H) as [n Hn]. exists n.
  assert (Hlt : n < List.length seq)
    by (apply nth_error_Some; rewrite Hn; discriminate).
  unfold random_choice. destruct seq as [|x r]; [destruct H|].
  rewrite Nat.mod_small by exact Hlt. exact Hn.
Qed.

Lemma random_choice_total (draw : nat) (seq : list string) :
  seq <> [] -> exists s, random_choice draw seq = Some s.
Proof.
  intros H. unfold random_choice. destruct seq as [|x r]; [contradiction|].
  destruct (nth_error (x :: r) (draw mod List.length (x :: r))) eqn:E;
    [eauto|].
  apply nth_error_None in E.
  pose proof (Nat.mod_upper_bound draw (List.length (x :: r))) as Hb.
  simpl in *. lia.
Qed.

Lemma pick_unfold (doc : json) (draw : nat) :
  pick_random_video_from_json doc draw = random_choice draw (walk doc []).
Proof.
  unfold pick_random_video_from_json. now destruct (walk doc []).
Qed.

(** Whatever is picked is a candidate, and every candidate can be picked. *)
Lemma pick_is_candidate (doc : json) (draw : nat) (s : string) :
  pick_random_video_from_json doc draw = Some s -> In s (walk doc []).
Proof. rewrite pick_unfold. apply random_choice_member. Qed.

Lemma pick_reaches_candidate (doc : json) (s : string) :
  In s (walk doc []) ->
  exists draw, pick_random_video_from_json doc draw = Some s.
Proof.
  intros H. destruct (random_choice_reaches _ _ H) as [d Hd].
  exists d. now rewrite pick_unfold.
Qed.

Lemma candidates_qualify (doc : json) (s : string) :
  In s (walk doc []) -> qualifies s = true.
Proof.
  revert s.
  induction doc as [| | | | |l IH|l IH] using json_rect'; intros s0 H;
    try (now destruct H).
  - rewrite walk_list in H. apply in_flat_map in H.
    destruct H as [x [Hx Hs]]. rewrite Forall_forall in IH. eauto.
  - rewrite walk_dict in H. apply in_flat_map in H.
    destruct H as [[k v] [Hx Hs]]. rewrite Forall_forall in IH.
    specialize (IH _ Hx). unfold item_candidates in Hs. simpl in *.
    destruct v; try (now apply IH).
    destruct (qualifies s) eqn:Hq; [|now apply IH].
    destruct Hs as [<-|[]]. exact Hq.
Qed.

(** *** The call trace *)

Lemma in_flat_mapi {A B : Type} (f : nat -> A -> list B) (l : list A)
    (i : nat) (b : B) :
  In b (flat_mapi f i l)
  <-> exists j x, nth_error l j = Some x /\ In b (f (i + j) x).
Proof.
  revert i. induction l as [|x r IH]; intros i; simpl.
  - split; [intros []|]. intros [j [x [H _]]]. destruct j; discriminate.
  - rewrite in_app_iff, IH. split.
    + intros [H|[j [y [Hj Hb]]]].
      * exists 0, x. rewrite Nat.add_0_r. auto.
      * exists (S j), y. rewrite Nat.add_succ_r. auto.
    + intros [[|j] [y [Hj Hb]]]; simpl in Hj.
      * injection Hj as <-. rewrite Nat.add_0_r in Hb. auto.
      * right. exists j, y. rewrite Nat.add_succ_r in Hb. auto.
Qed.

Lemma flat_mapi_push {A B C : Type} (h : list B -> list C)
    (f : nat -> A -> list B) (l : list A) :
  h [] = [] ->
  (forall a b, h (a ++ b) = h a ++ h b) ->
  forall i, h (flat_mapi f i l) = flat_mapi (fun i x => h (f i x)) i l.
Proof.
  intros Hnil Happ. induction l as [|x r IH]; intros i; simpl; [exact Hnil|].
  now rewrite Happ, IH.
Qed.

Lemma flat_mapi_indep {A B : Type} (f : nat -> A -> list B)
    (g : A -> list B) (l : list A) :
  (forall x, In x l -> forall i, f i x = g x) ->
  forall i, flat_mapi f i l = flat_map g l.
Proof.
  induction l as [|x r IH]; intros H i; simpl; [reflexivity|].
  rewrite (H x) by now left. f_equal. apply IH.
  intros y Hy. apply H. now right.
Qed.

Lemma length_flat_mapi {A B : Type} (f : nat -> A -> list B) (g : A -> nat)
    (l : list A) :
  (forall x, In x l -> forall i, List.length (f i x) = g x) ->
  forall i, List.length (flat_mapi f i l) = list_sum (map g l).
Proof.
  induction l as [|x r IH]; intros H i; simpl; [reflexivity|].
  rewrite length_app, (H x) by now left. f_equal. apply IH.
  intros y Hy. apply H. now right.
Qed.

Lemma NoDup_flat_mapi {A B : Type} (f : nat -> A -> list B) (tag : B -> nat) :
  (forall i x b, In b (f i x) -> tag b = i) ->
  forall l i,
    (forall j x, nth_error l j = Some x -> NoDup (f (i + j) x)) ->
    NoDup (flat_mapi f i l).
Proof.
  intros Htag. induction l as [|a r IH]; intros i H; simpl; [constructor|].
  apply NoDup_app.
  - specialize (H 0 a eq_refl). now rewrite Nat.add_0_r in H.
  - apply IH. intros j x Hj. specialize (H (S j) x Hj).
    now rewrite Nat.add_succ_r in H.
  - intros b Hb Hb'. apply in_flat_mapi in Hb'.
    destruct Hb' as [j [x [_ Hx]]]. apply Htag in Hb, Hx. lia.
Qed.

Lemma in_under (st : step) (e : event) (evs : list event) :
  In e (map (under st) evs) <-> exists e', e = under st e' /\ In e' evs.
Proof.
  rewrite in_map_iff. split; intros [e' [H1 H2]]; exists e'; auto.
Qed.

Lemma in_appends (p : path) (s : string) (evs : list event) :
  In (p, s) (appends evs) <-> In (Append p s) evs.
Proof.
  unfold appends. rewrite in_flat_map. split.
  - intros [[q|q t] [Hin H]]; [destruct H|].
    destruct H as [H|[]]. now injection H as -> ->.
  - intros H. exists (Append p s). split; [exact H|now left].
Qed.

Lemma in_visits (p : path) (evs : list event) :
  In p (visits evs) <-> In (Visit p) evs.
Proof.
  unfold visits. rewrite in_flat_map. split.
  - intros [[q|q t] [Hin H]]; [|destruct H].
    destruct H as [H|[]]. now subst q.
  - intros H. exists (Visit p). split; [exact H|now left].
Qed.

Lemma appends_under (st : step) (evs : list event) :
  appends (map (under st) evs)
  = map (fun ps => (st :: fst ps, snd ps)) (appends evs).
Proof.
  induction evs as [|[p|p s] r IH]; simpl; [reflexivity|exact IH|].
  now rewrite IH.
Qed.

Lemma walk_events_dict (items : list (string * json)) (e : event) :
  In e (walk_events (JDict items))
  <-> e = Visit []
      \/ exists i kv, nth_error items i = Some kv
                      /\ In e (item_events walk_events i kv).
Proof.
  cbn [walk_events]. cbn [In]. rewrite in_flat_mapi. cbn [Nat.add].
  split; (intros [H|H]; [left; now rewrite H|right; exact H]).
Qed.

Lemma walk_events_list (its : list json) (e : event) :
  In e (walk_events (JList its))
  <-> e = Visit []
      \/ exists i it, nth_error its i = Some it
                      /\ In e (elem_events walk_events i it).
Proof.
  cbn [walk_events]. cbn [In]. rewrite in_flat_mapi. cbn [Nat.add].
  split; (intros [H|H]; [left; now rewrite H|right; exact H]).
Qed.

Lemma item_events_path (i : nat) (kv : string * json) (e : event) :
  In e (item_events walk_events i kv) ->
  exists q, event_path e = InItem i :: q.
Proof.
  destruct kv as [k v]. unfold item_events.
  assert (Hmap : In e (map (under (InItem i)) (walk_events v)) ->
                 exists q, event_path e = InItem i :: q).
  { intros H. apply in_under in H. destruct H as [[p|p s] [-> _]]; simpl; eauto. }
  destruct v; try exact Hmap.
  destruct (qualifies s); [|exact Hmap].
  intros [<-|[]]. simpl. eauto.
Qed.

Lemma elem_events_path (i : nat) (it : json) (e : event) :
  In e (elem_events walk_events i it) ->
  exists q, event_path e = InElem i :: q.
Proof.
  unfold elem_events. intros H. apply in_under in H.
  destruct H as [[p|p s] [-> _]]; simpl; eauto.
Qed.

(** An append happens exactly at the classified positions. *)
Lemma append_iff_classified (doc : json) :
  forall p s, In (Append p s) (walk_events doc) <-> classified doc p s.
Proof.
  induction doc as [| | | | |l IH|l IH] using json_rect'; intros p s0;
    try (split; [intros [H|[]]; discriminate H | intros H; inversion H]).
  - rewrite Forall_forall in IH. rewrite walk_events_list. split.
    + intros [H|[i [it [Hi He]]]]; [discriminate H|].
      apply in_under in He. destruct He as [[q|q t] [E He]]; [discriminate E|].
      injection E as -> ->.
      eapply classified_elem; [exact Hi|].
      apply IH; [eapply nth_error_In; exact Hi|exact He].
    + intros H. inversion H; subst. right. exists i, v. split; [assumption|].
      apply in_under. exists (Append p0 s0). split; [reflexivity|].
      apply IH; [eapply nth_error_In; eassumption|assumption].
  - rewrite Forall_forall in IH. rewrite walk_events_dict. split.
    + intros [H|[i [[k v] [Hi He]]]]; [discriminate H|].
      assert (Hrec : In (Append p s0) (map (under (InItem i)) (walk_events v))
                     -> classified (JDict l) p s0).
      { intros Hm. apply in_under in Hm.
        destruct Hm as [[q|q t] [E Hm]]; [discriminate E|].
        injection E as -> ->.
        eapply classified_item; [exact Hi|].
        apply (IH (k, v)); [eapply nth_error_In; exact Hi|exact Hm]. }
      unfold item_events in He. destruct v; try (now apply Hrec).
      destruct (qualifies s) eqn:Hq; [|now apply Hrec].
      destruct He as [E|[]]. injection E as <- <-.
      eapply classified_here; eassumption.
    + intros H. right. inversion H; subst.
      * exists i, (k, JStr s0). split; [assumption|].
        unfold item_events.
        match goal with Hq : qualifies _ = true |- _ => rewrite Hq end.
        now left.
      * exists i, (k, v). split; [assumption|].
        assert (Hrec : In (Append (InItem i :: p0) s0)
                          (map (under (InItem i)) (walk_events v))).
        { apply in_under. exists (Append p0 s0). split; [reflexivity|].
          apply (IH (k, v)); [eapply nth_error_In; eassumption|assumption]. }
        unfold item_events. destruct v; try exact Hrec.
        match goal with Hc : classified (JStr _) _ _ |- _ => inversion Hc end.
Qed.

(** [walk] is never called on an appended position, nor below it. *)
Lemma appended_never_visited (doc : json) :
  forall p s q,
    In (Append p s) (walk_events doc) ->
    ~ In (Visit (p ++ q)) (walk_events doc).
Proof.
  induction doc as [| | | | |l IH|l IH] using json_rect'; intros p s0 q;
    try (intros [H|[]]; discriminate H).
  - rewrite Forall_forall in IH. rewrite !walk_events_list.
    intros [H|[i [it [Hi He]]]]; [discriminate H|].
    destruct (elem_events_path _ _ _ He) as [p' Hp]. simpl in Hp. subst p.
    intros [H|[j [it' [Hj Hv]]]]; [discriminate H|].
    destruct (elem_events_path _ _ _ Hv) as [q' Hq]. simpl in Hq.
    injection Hq as -> _. rewrite Hi in Hj. injection Hj as <-.
    apply in_under in He. destruct He as [[a|a t] [E He]]; [discriminate E|].
    injection E as -> ->.
    apply in_under in Hv. destruct Hv as [[b|b t'] [E Hv]]; [|discriminate E].
    simpl in E. injection E as <-.
    eapply (IH it); [eapply nth_error_In; exact Hi|exact He|exact Hv].
  - rewrite Forall_forall in IH. rewrite !walk_events_dict.
    intros [H|[i [[k v] [Hi He]]]]; [discriminate H|].
    destruct (item_events_path _ _ _ He) as [p' Hp]. simpl in Hp. subst p.
    intros [H|[j [kv' [Hj Hv]]]]; [discriminate H|].
    destruct (item_events_path _ _ _ Hv) as [q' Hq]. simpl in Hq.
    injection Hq as -> _. rewrite Hi in Hj. injection Hj as <-.
    assert (Hrec : In (Append (InItem j :: p') s0)
                      (map (under (InItem j)) (walk_events v)) ->
                   In (Visit (InItem j :: p' ++ q))
                      (map (under (InItem j)) (walk_events v)) -> False).
    { intros Ha Hb.
      apply in_under in Ha. destruct Ha as [[a|a t] [E Ha]]; [discriminate E|].
      injection E as -> ->.
      apply in_under in Hb. destruct Hb as [[b|b t'] [E Hb]]; [|discriminate E].
      simpl in E. injection E as <-.
      eapply (IH (k, v)); [eapply nth_error_In; exact Hi|exact Ha|exact Hb]. }
    unfold item_events in He, Hv. simpl in Hv.
    destruct v; try (now apply Hrec).
    destruct (qualifies s); [|now apply Hrec].
    destruct Hv as [E|[]]. discriminate E.
Qed.

Lemma appends_app (a b : list event) :
  appends (a ++ b) = appends a ++ appends b.
Proof. apply flat_map_app. Qed.

Lemma appended_paths_under (st : step) (evs : list event) :
  map fst (appends (map (under st) evs))
  = map (cons st) (map fst (appends evs)).
Proof. rewrite appends_under, !map_map. reflexivity. Qed.

Lemma appended_paths_push {A : Type} (f : nat -> A -> list event)
    (l : list A) (i : nat) :
  map fst (appends (flat_mapi f i l))
  = flat_mapi (fun i x => map fst (appends (f i x))) i l.
Proof.
  apply (flat_mapi_push (fun evs => map fst (appends evs))); [reflexivity|].
  intros a b. now rewrite appends_app, map_app.
Qed.

Lemma cons_injective (st : step) : Finite.Injective (cons st).
Proof. intros a b H. now injection H. Qed.

(** No position is appended twice. *)
Lemma appended_positions_NoDup (doc : json) :
  NoDup (map fst (appends (walk_events doc))).
Proof.
  induction doc as [| | | | |l IH|l IH] using json_rect';
    try (cbn; constructor).
  - rewrite Forall_forall in IH. cbn [walk_events].
    change (appends (Visit [] :: ?x)) with (appends x).
    rewrite appended_paths_push.
    apply NoDup_flat_mapi with (tag := head_index).
    + intros i it p. unfold elem_events. rewrite appended_paths_under.
      rewrite in_map_iff. intros [q [<- _]]. reflexivity.
    + intros j it Hj. unfold elem_events. rewrite appended_paths_under.
      apply Finite.Injective_map_NoDup; [apply cons_injective|].
      apply IH. eapply nth_error_In; exact Hj.
  - rewrite Forall_forall in IH. cbn [walk_events].
    change (appends (Visit [] :: ?x)) with (appends x).
    rewrite appended_paths_push.
    apply NoDup_flat_mapi with (tag := head_index).
    + intros i [k v] p Hp.
      assert (Hrec : In p (map fst (appends
                        (map (under (InItem i)) (walk_events v)))) ->
                     head_index p = i).
      { rewrite appended_paths_under, in_map_iff.
        intros [q [<- _]]. reflexivity. }
      unfold item_events in Hp. destruct v; try (now apply Hrec).
      destruct (qualifies s); [|now apply Hrec].
      destruct Hp as [<-|[]]. reflexivity.
    + intros j [k v] Hj.
      assert (Hrec : NoDup (map fst (appends
                        (map (under (InItem (0 + j))) (walk_events v))))).
      { rewrite appended_paths_under.
        apply Finite.Injective_map_NoDup; [apply cons_injective|].
        apply (IH (k, v)). eapply nth_error_In; exact Hj. }
      unfold item_events. destruct v; try exact Hrec.
      destruct (qualifies s); [|exact Hrec].
      cbn. repeat constructor. intros [].
Qed.

(** Erasing the positions gives back the candidate list of [walk]. *)
Lemma appended_strings_are_candidates (doc : json) :
  map snd (appends (walk_events doc)) = walk doc [].
Proof.
  induction doc as [| | | | |l IH|l IH] using json_rect'; try reflexivity.
  - rewrite Forall_forall in IH. rewrite walk_list. cbn [walk_events].
    change (appends (Visit [] :: ?x)) with (appends x).
    rewrite (flat_mapi_push (fun evs => map snd (appends evs)));
      [|reflexivity|intros a b; now rewrite appends_app, map_app].
    apply flat_mapi_indep. intros it Hit i. unfold elem_events.
    rewrite appends_under, map_map. simpl. rewrite <- (IH it Hit).
    reflexivity.
  - rewrite Forall_forall in IH. rewrite walk_dict. cbn [walk_events].
    change (appends (Visit [] :: ?x)) with (appends x).
    rewrite (flat_mapi_push (fun evs => map snd (appends evs)));
      [|reflexivity|intros a b; now rewrite appends_app, map_app].
    apply flat_mapi_indep. intros [k v] Hit i.
    specialize (IH (k, v) Hit). simpl in IH.
    assert (Hrec : map snd (appends (map (under (InItem i)) (walk_events v)))
                   = walk v []).
    { rewrite appends_under, map_map. simpl. rewrite <- IH. reflexivity. }
    unfold item_events, item_candidates. simpl.
    destruct v; try exact Hrec.
    destruct (qualifies s); [reflexivity|exact Hrec].
Qed.

(** Every value of the document is handled by exactly one event. *)
Lemma walk_events_length (doc : json) :
  List.length (walk_events doc) = size doc.
Proof.
  induction doc as [| | | | |l IH|l IH] using json_rect'; try reflexivity.
  - rewrite Forall_forall in IH. cbn [walk_events size List.length]. f_equal.
    apply length_flat_mapi. intros it Hit i. unfold elem_events.
    rewrite length_map. now apply IH.
  - rewrite Forall_forall in IH. cbn [walk_events size List.length]. f_equal.
    apply length_flat_mapi. intros [k v] Hit i.
    specialize (IH (k, v) Hit). simpl in IH. unfold item_events. simpl.
    destruct v; try (rewrite length_map; exact IH).
    destruct (qualifies s); [reflexivity|rewrite length_map; exact IH].
Qed.

(** *** The claims on the selector *)

(** What holds of the call trace of [walk] for every document: the
    strings appended are the candidate list; an append happens at
    position [p] exactly when [p] is a position the test of line 49
    classifies (a map value holding a qualifying string); each such
    position is appended once and no position at all is appended twice;
    [walk] is never called on an appended position nor below it; and the
    traversal ends after one event per value of the document. *)
Lemma walk_appends_classified_once (doc : json) :
  map snd (appends (walk_events doc)) = walk doc []
  /\ (forall p s, In (p, s) (appends (walk_events doc)) <-> classified doc p s)
  /\ (forall p s, classified doc p s ->
        count_occ path_eq_dec (map fst (appends (walk_events doc))) p = 1)
  /\ NoDup (map fst (appends (walk_events doc)))
  /\ (forall p s q, classified doc p s ->
        ~ In (p ++ q) (visits (walk_events doc)))
  /\ List.length (walk_events doc) = size doc.
Proof.
  split; [apply appended_strings_are_candidates|].
  split; [intros p s; rewrite in_appends; apply append_iff_classified|].
  split.
  { intros p s H.
    apply (proj1 (NoDup_count_occ' path_eq_dec _)
                 (appended_positions_NoDup doc)).
    apply in_map_iff. exists (p, s). split; [reflexivity|].
    apply in_appends. now apply append_iff_classified. }
  split; [apply appended_positions_NoDup|].
  split; [|apply walk_events_length].
  intros p s q H Hv. apply in_visits in Hv.
  apply append_iff_classified in H.
  exact (appended_never_visited doc p s q H Hv).
Qed.

(** C8 -- Each qualifying leaf is appended to the candidate list exactly
    once, and the traversal never descends into a string it takes for
    qualifying.  The code on a qualifying string that is an element of a
    sequence: the loop of lines 54-55 calls [walk] on it, and nothing is
    appended for it, since only the values of map items are tested (line
    49).  This holds for every sequence with such an element, and so on
    the document whose one video URL sits in a sequence: its qualifying
    set has one member, [walk] is called on that string, and no append
    happens at all. *)
Theorem walk_descends_into_sequence_strings :
  (forall its i s,
     nth_error its i = Some (JStr s) ->
     qualifies s = true ->
     In s (spec_qualifying_strings (JList its))
     /\ In [InElem i] (visits (walk_events (JList its)))
     /\ count_occ path_eq_dec
                  (map fst (appends (walk_events (JList its)))) [InElem i]
        = 0)
  /\ spec_qualifying_strings doc_clip_in_list = ["http://x/a.mp4"%string]
  /\ visits (walk_events doc_clip_in_list)
     = [[]; [InItem 0]; [InItem 0; InElem 0]]
  /\ appends (walk_events doc_clip_in_list) = []
  /\ walk doc_clip_in_list [] = [].
Proof.
  split; [|repeat split].
  intros its i s Hi Hq. split; [|split].
  - cbn [spec_qualifying_strings]. apply in_flat_map.
    exists (JStr s). split; [eapply nth_error_In; exact Hi|].
    cbn [spec_qualifying_strings]. rewrite Hq. now left.
  - apply in_visits. apply walk_events_list. right.
    exists i, (JStr s). split; [exact Hi|]. now left.
  - apply count_occ_not_In. intros H. apply in_map_iff in H.
    destruct H as [[p s'] [E H]]. simpl in E. subst p.
    apply in_appends in H. apply append_iff_classified in H.
    inversion H as [| |its' i' v p' s'' Hn Hc]; subst.
    rewrite Hi in Hn. injection Hn as <-. inversion Hc.
Qed.

(** C2 -- The selector returns a member of the qualifying set wherever
    the string sits.  The code evaluated on a document whose one video
    URL is an element of a sequence, and on a document that is the URL
    itself: the qualifying set of the specification has one member, and
    the selector returns [None] for every draw. *)
Theorem pick_misses_sequence_and_root_strings :
  spec_qualifying_strings doc_clip_in_list = ["http://x/a.mp4"%string]
  /\ (forall draw, pick_random_video_from_json doc_clip_in_list draw = None)
  /\ spec_qualifying_strings (JStr "http://x/a.mp4") = ["http://x/a.mp4"%string]
  /\ (forall draw,
        pick_random_video_from_json (JStr "http://x/a.mp4") draw = None).
Proof. repeat split. Qed.

(** The scenario of section 8: both clips are candidates, in order. *)
Example walk_two_events :
  walk doc_two_events []
  = ["http://x/a.mp4"%string; "http://x/b.mp4"%string].
Proof. reflexivity. Qed.

(** What does hold for every document: the selector returns only
    qualifying strings of the document, every candidate is reached by
    some draw, and on documents whose strings all sit under maps the
    candidates are the whole qualifying set. *)
Lemma pick_within_qualifying_set (doc : json) (draw : nat) (s : string) :
  pick_random_video_from_json doc draw = Some s ->
  In s (spec_qualifying_strings doc) /\ qualifies s = true.
Proof.
  intros H. apply pick_is_candidate in H. split.
  - now apply walk_sound.
  - eapply candidates_qualify; eassumption.
Qed.

Lemma pick_exact_under_maps (doc : json) :
  strings_under_maps doc = true ->
  (forall s, In s (spec_qualifying_strings doc) <->
             exists draw, pick_random_video_from_json doc draw = Some s)
  /\ (spec_qualifying_strings doc = [] <->
      forall draw, pick_random_video_from_json doc draw = None).
Proof.
  intros H. rewrite <- (walk_complete_under_maps doc H). split.
  - intros s. split; [apply pick_reaches_candidate|].
    intros [d Hd]. eapply pick_is_candidate; eassumption.
  - split.
    + intros E d. unfold pick_random_video_from_json. now rewrite E.
    + intros Hn. destruct (walk doc []) as [|x r] eqn:E; [reflexivity|].
      destruct (random_choice_total 0 (x :: r)) as [s Hs]; [discriminate|].
      specialize (Hn 0). rewrite pick_unfold, E, Hs in Hn. discriminate Hn.
Qed.

End SelectorFacts.

(* ------------------------------------------------------------------ *)
(** ** TranscodeJobService                                              *)
(* ------------------------------------------------------------------ *)

Module TranscodeFacts.
Import Json Transcode.
Local Open Scope Z_scope.

(** *** [submit_job] *)

(** C9 (as stated) -- one output per requested rendition.  [submit_job]
    takes no rendition list; asked for the single rendition 1920x1080 the
    job it builds still carries its two fixed outputs. *)
Lemma submit_job_ignores_renditions :
  List.length (job_outputs (job_settings "role" "s3://in/a.mp4" "s3://out/"))
  = 2%nat
  /\ job_outputs (job_settings "role" "s3://in/a.mp4" "s3://out/")
     <> spec_outputs [(1920, 1080)].
Proof. split; [reflexivity|discriminate]. Qed.

(** C9 (amended) -- [submit_job] builds a job description with exactly one
    input and one output group, and that group holds exactly the two
    outputs of the docstring, 1280x720 and 854x480, each naming the
    container and the resolution only; the description is what
    [create_job] receives. *)
Theorem submit_job_fixed_renditions
    (role_arn input_s3 output_s3_prefix : string) :
  job_inputs (job_settings role_arn input_s3 output_s3_prefix)
  = [JDict [("FileInput"%string, JStr input_s3)]]
  /\ List.length (job_output_groups
                    (job_settings role_arn input_s3 output_s3_prefix)) = 1%nat
  /\ job_outputs (job_settings role_arn input_s3 output_s3_prefix)
     = spec_outputs [(1280, 720); (854, 480)]
  /\ (forall create_job,
        submit_job create_job role_arn input_s3 output_s3_prefix
        = match create_job (job_settings role_arn input_s3 output_s3_prefix)
          with
          | Some resp => bind_sub (subscript resp "Job") "Id"
          | None => None
          end).
Proof.
  repeat split.
Qed.

(** *** [poll_job] *)

Lemma is_terminal_cases (status : string) :
  is_terminal status = true ->
  In status ["COMPLETE"%string; "ERROR"%string; "CANCELED"%string].
Proof.
  unfold is_terminal. rewrite !orb_true_iff, !String.eqb_eq. simpl.
  intros [[H|H]|H]; auto.
Qed.

Lemma poll_loop_more_fuel (mc : provider) (interval timeout started : Z) :
  forall fuel now n r,
    poll_loop fuel mc interval timeout started now n = Some r ->
    forall fuel', (fuel <= fuel')%nat ->
      poll_loop fuel' mc interval timeout started now n = Some r.
Proof.
  induction fuel as [|fuel IH]; intros now n r H fuel' Hle; [discriminate H|].
  destruct fuel' as [|fuel']; [lia|]. cbn [poll_loop] in *.
  destruct (is_terminal (job_status (get_job mc n))); [exact H|].
  destruct (now + query_time mc n - started >? timeout); [exact H|].
  apply (IH _ _ _ H). lia.
Qed.

(** What the loop returns: at the return the time elapsed is at most the
    timeout, one interval, and the time of the last query. *)
Lemma poll_loop_returns (mc : provider) (interval timeout started : Z) :
  0 < interval ->
  (forall n, 0 <= query_time mc n) ->
  forall fuel now n,
    started <= now ->
    now - started <= timeout + interval ->
    timeout + interval - (now - started) < Z.of_nat fuel * interval ->
    exists r k,
      poll_loop fuel mc interval timeout started now n = Some r
      /\ final_response r = get_job mc k
      /\ started <= returned_at r
      /\ returned_at r - started <= timeout + interval + query_time mc k
      /\ ((final_status r = "TIMEOUT"%string
           /\ timeout < returned_at r - started)
          \/ (final_status r = job_status (final_response r)
              /\ is_terminal (final_status r) = true)).
Proof.
  intros Hint Hq. induction fuel as [|fuel IH]; intros now n H1 H2 H3.
  - simpl in H3. lia.
  - cbn [poll_loop]. pose proof (Hq n) as Hn.
    destruct (is_terminal (job_status (get_job mc n))) eqn:Ht.
    + eexists. exists n. split; [reflexivity|]. simpl.
      repeat split; try lia. right. split; [reflexivity|exact Ht].
    + destruct (now + query_time mc n - started >? timeout) eqn:Hgt.
      * eexists. exists n. split; [reflexivity|]. simpl.
        repeat split; try lia.
        left. split; [reflexivity|]. apply Z.gtb_lt in Hgt. lia.
      * assert (Hle : now + query_time mc n - started <= timeout).
        { destruct (Z.gtb_spec (now + query_time mc n - started) timeout);
            [discriminate|lia]. }
        apply IH; nia.
Qed.

(** C3 -- For a positive interval, a timeout that is not negative, and
    any sequence of answers of [get_job]: [poll_job] returns (with enough
    fuel, and with the same result for any more), its status is one of
    COMPLETE, ERROR, CANCELED, TIMEOUT, and the time elapsed is at most
    [timeout + interval] plus the time of the last query, hence at most
    [timeout + interval] in the modelled time in which the clock is moved
    by [time.sleep] alone; a job that never reaches a terminal status
    yields TIMEOUT, after the timeout has passed.  For interval 10 and
    timeout 30 on a job stuck in PROGRESSING that is TIMEOUT at 40. *)
Theorem poll_job_returns_in_time
    (mc : provider) (interval timeout t0 : Z) :
  0 < interval ->
  0 <= timeout ->
  (forall n, 0 <= query_time mc n) ->
  (exists fuel r k,
      (forall fuel', (fuel <= fuel')%nat ->
                     poll_job fuel' mc interval timeout t0 = Some r)
      /\ In (final_status r)
            ["COMPLETE"%string; "ERROR"%string; "CANCELED"%string;
             "TIMEOUT"%string]
      /\ final_response r = get_job mc k
      /\ 0 <= returned_at r - t0 <= timeout + interval + query_time mc k
      /\ ((forall n, query_time mc n = 0) ->
          returned_at r - t0 <= timeout + interval)
      /\ ((forall n, is_terminal (job_status (get_job mc n)) = false) ->
          final_status r = "TIMEOUT"%string
          /\ timeout < returned_at r - t0))
  /\ poll_job 5 stuck_job 10 30 0
     = Some (mkPollResult "TIMEOUT" (mkResponse "PROGRESSING" JNull) 40).
Proof.
  intros Hint Hto Hq. split; [|reflexivity].
  set (fuel := S (Z.to_nat (timeout / interval + 1))).
  destruct (poll_loop_returns mc interval timeout t0 Hint Hq fuel t0 0%nat)
    as [r [k [Hr [Hk [H1 [H2 H3]]]]]]; try lia.
  { unfold fuel. rewrite Nat2Z.inj_succ, Z2Nat.id.
    - pose proof (Z.mul_succ_div_gt timeout interval Hint). nia.
    - pose proof (Z.div_pos timeout interval Hto Hint). lia. }
  exists fuel, r, k.
  split; [|split; [|split; [exact Hk|split; [lia|split]]]].
  - intros fuel' Hle. unfold poll_job.
    eapply poll_loop_more_fuel; [exact Hr|exact Hle].
  - destruct H3 as [[-> _]|[_ Ht]].
    + simpl. auto.
    + apply is_terminal_cases in Ht. simpl in Ht |- *. tauto.
  - intros Hz. rewrite (Hz k) in H2. lia.
  - intros Hnever. destruct H3 as [[E Hlt]|[E Ht]]; [now split|].
    rewrite E, Hk, Hnever in Ht. discriminate Ht.
Qed.

Lemma poll_job_returns_in_time_witness :
  0 < 10
  /\ 0 <= 30
  /\ (forall n, 0 <= query_time stuck_job n)
  /\
  (exists fuel r k,
      (forall fuel', (fuel <= fuel')%nat ->
                     poll_job fuel' stuck_job 10 30 0 = Some r)
      /\ In (final_status r)
            ["COMPLETE"%string; "ERROR"%string; "CANCELED"%string;
             "TIMEOUT"%string]
      /\ final_response r = get_job stuck_job k
      /\ 0 <= returned_at r - 0 <= 30 + 10 + query_time stuck_job k
      /\ ((forall n, query_time stuck_job n = 0) ->
          returned_at r - 0 <= 30 + 10)
      /\ ((forall n, is_terminal (job_status (get_job stuck_job n)) = false) ->
          final_status r = "TIMEOUT"%string
          /\ 30 < returned_at r - 0))
  /\ poll_job 5 stuck_job 10 30 0
     = Some (mkPollResult "TIMEOUT" (mkResponse "PROGRESSING" JNull) 40).
Proof.
  split; [lia|]. split; [lia|].
  split; [intros n; simpl; lia|].
  apply (poll_job_returns_in_time stuck_job 10 30 0).
  - lia.
  - lia.
  - intros n. simpl. lia.
Defined.

(** With an interval of zero the same job is polled for ever: no amount
    of fuel makes the loop return. *)
Lemma poll_job_zero_interval_spins (fuel : nat) :
  poll_job fuel stuck_job 0 30 0 = None.
Proof.
  unfold poll_job. generalize 0%nat.
  induction fuel as [|fuel IH]; intros n; [reflexivity|].
  cbn. apply IH.
Qed.

End TranscodeFacts.

(* ------------------------------------------------------------------ *)
(** ** PipelineOrchestrator                                             *)
(* ------------------------------------------------------------------ *)

Module PipelineFacts.
Import Json Pipeline.
Local Open Scope string_scope.

(** *** Keys *)

Lemma video_filename_is_a_name (url : string) :
  PyStr.kept_part (video_filename url) = true
  /\ PyStr.mem_char PyStr.slash (video_filename url) = false.
Proof.
  unfold video_filename, PyStr.str_or.
  destruct (PyStrFacts.path_name_shape url) as [E|[Hk Hs]].
  - rewrite E. split; reflexivity.
  - destruct (String.eqb (PyStr.path_name url) "") eqn:E; [|now split].
    apply String.eqb_eq in E. rewrite E in Hk. discriminate Hk.
Qed.

(** The key of line 129 ends in the file name chosen at line 124,
    whatever directory [mkdtemp] gave. *)
Lemma video_key_of_join (cfg : Config) (tmpdir url : string) :
  video_key cfg (PyStr.path_join tmpdir (video_filename url))
  = "incoming/" ++ DEFAULT_LEAGUE cfg ++ "/" ++ DEFAULT_DATE cfg ++ "/"
    ++ PyStr.str_or (PyStr.path_name url) "video.mp4".
Proof.
  unfold video_key.
  destruct (video_filename_is_a_name url) as [Hk Hs].
  rewrite (PyStrFacts.path_name_join _ _ Hk Hs). reflexivity.
Qed.

(** *** Running [main] symbolically: unfold the statements, then split on
    every answer of the outside that the run reads. *)

Ltac unfold_run :=
  unfold run, main, main_body, fetch_highlights, upload_logs, download_video,
    upload_file_to_s3, try_except, bind, log, s3_send, datetime_now,
    may_raise, raise, ret, fresh_world.

Ltac unfold_run_in H :=
  unfold run, main, main_body, fetch_highlights, upload_logs, download_video,
    upload_file_to_s3, try_except, bind, log, s3_send, datetime_now,
    may_raise, raise, ret, fresh_world in H.

Ltac eval_run :=
  cbn -[PyStr.path_join PyStr.path_name video_filename video_key metadata_key
        log_key String.append Selector.pick_random_video_from_json truthy
        configured PyStr.strftime_compact reported_status].

Ltac prune_run :=
  try match goal with
      | H : negb (truthy JNull) = false |- _ => discriminate H
      end.

Ltac split_run_with extra :=
  repeat (eval_run; prune_run; extra;
          match goal with
          | |- context [match ?x with _ => _ end] =>
              lazymatch x with
              | context [match _ with _ => _ end] => fail
              | _ => destruct x eqn:?
              end
          end);
  prune_run; eval_run.

Ltac split_run := split_run_with idtac.

(** The same on a hypothesis [H : r = run cfg env]. *)
Ltac eval_run_in H :=
  cbn -[PyStr.path_join PyStr.path_name video_filename video_key metadata_key
        log_key String.append Selector.pick_random_video_from_json truthy
        configured PyStr.strftime_compact reported_status] in H.

Ltac split_run_in H :=
  repeat (eval_run_in H; prune_run;
          match type of H with
          | context [match ?x with _ => _ end] =>
              lazymatch x with
              | context [match _ with _ => _ end] => fail
              | _ => destruct x eqn:?
              end
          end);
  prune_run; eval_run_in H.

Ltac find_record :=
  repeat first [left; reflexivity | right].

Ltac each_call tac :=
  repeat (apply Forall_cons; [tac|]); try apply Forall_nil.

Lemma picked_url_is_not_empty (doc : json) (draw : nat) (url : string) :
  Selector.pick_random_video_from_json doc draw = Some url ->
  String.eqb url "" = false.
Proof.
  intros H. apply SelectorFacts.pick_is_candidate in H.
  apply SelectorFacts.candidates_qualify in H.
  destruct url; [discriminate H|reflexivity].
Qed.

(** C6 -- For every run, with league L, date D and selected file name F,
    the keys of the objects requested are exactly the layout of section
    6: [highlights/L/D/highlights.json] in the metadata bucket,
    [incoming/L/D/F] in the video bucket, F being the name of the URL the
    selector returned (or [video.mp4]), and [pipeline_log_STAMP.txt] in
    the log bucket, STAMP of the shape YYYYMMDD_HHMMSS.  Every request of
    every run follows that layout, and a run with the three buckets
    configured in which the fetch, the selection and the uploads work
    requests exactly these three keys, in this order. *)
Theorem object_keys_follow_layout (cfg : Config) (env : Env) :
  (forall n, PyStr.valid_datetime (clock env n) = true) ->
  Forall (follows_layout cfg env) (s3_calls (snd (run cfg env)))
  /\ (forall doc url mb vb lb,
        fetch_response env = HttpOk doc ->
        truthy doc = true ->
        Selector.pick_random_video_from_json doc (random_draw env)
        = Some url ->
        configured (METADATA_BUCKET cfg) = Some mb ->
        configured (VIDEOS_BUCKET cfg) = Some vb ->
        configured (LOGS_BUCKET cfg) = Some lb ->
        tempfile_write env = None ->
        mkdtemp_error env = None ->
        (forall n, s3_response env n = None) ->
        keys_written (snd (run cfg env))
        = ["highlights/" ++ DEFAULT_LEAGUE cfg ++ "/" ++ DEFAULT_DATE cfg
           ++ "/highlights.json";
           "incoming/" ++ DEFAULT_LEAGUE cfg ++ "/" ++ DEFAULT_DATE cfg
           ++ "/" ++ PyStr.str_or (PyStr.path_name url) "video.mp4";
           "pipeline_log_" ++ PyStr.strftime_compact (clock env 0)
           ++ ".txt"]).
Proof.
  intros Hclock. split.
  - unfold_run. split_run.
    all: each_call ltac:(
      unfold follows_layout; cbn [call_request call_key call_bucket];
      first
        [ left; split; [eassumption|reflexivity]
        | right; split; [eassumption|];
          do 2 eexists; split; [eassumption|]; split; [eassumption|];
          apply video_key_of_join
        | split; [eassumption|];
          eexists; split; [reflexivity|];
          apply PyStrFacts.strftime_compact_shape; apply Hclock ]).
  - intros doc url mb vb lb Hf Ht Hp Hm Hv Hl Htw Hmk Hs3.
    pose proof (picked_url_is_not_empty _ _ _ Hp) as Hne.
    unfold keys_written. unfold_run.
    repeat (eval_run;
            first [ rewrite Hf | rewrite Ht | rewrite Hp | rewrite Hm
                  | rewrite Hv | rewrite Hl | rewrite Htw | rewrite Hmk
                  | rewrite Hs3 | rewrite Hne
                  | match goal with
                    | |- context [download_response env] =>
                        destruct (download_response env)
                    end ]).
    all: eval_run; rewrite video_key_of_join; reflexivity.
Qed.

Lemma object_keys_follow_layout_witness :
  (forall n, PyStr.valid_datetime (clock env_fine n) = true)
  /\ Forall (follows_layout cfg_demo env_fine)
            (s3_calls (snd (run cfg_demo env_fine)))
  /\ (forall doc url mb vb lb,
        fetch_response env_fine = HttpOk doc ->
        truthy doc = true ->
        Selector.pick_random_video_from_json doc (random_draw env_fine)
        = Some url ->
        configured (METADATA_BUCKET cfg_demo) = Some mb ->
        configured (VIDEOS_BUCKET cfg_demo) = Some vb ->
        configured (LOGS_BUCKET cfg_demo) = Some lb ->
        tempfile_write env_fine = None ->
        mkdtemp_error env_fine = None ->
        (forall n, s3_response env_fine n = None) ->
        keys_written (snd (run cfg_demo env_fine))
        = ["highlights/" ++ DEFAULT_LEAGUE cfg_demo ++ "/"
           ++ DEFAULT_DATE cfg_demo ++ "/highlights.json";
           "incoming/" ++ DEFAULT_LEAGUE cfg_demo ++ "/"
           ++ DEFAULT_DATE cfg_demo
           ++ "/" ++ PyStr.str_or (PyStr.path_name url) "video.mp4";
           "pipeline_log_" ++ PyStr.strftime_compact (clock env_fine 0)
           ++ ".txt"]).
Proof.
  split; [intros n; reflexivity|].
  apply (object_keys_follow_layout cfg_demo env_fine).
  intros n. reflexivity.
Defined.

(** The keys of the run in which every step works. *)
Example keys_of_a_fine_run :
  keys_written (snd (run cfg_demo env_fine))
  = ["highlights/Superettan/2025-01-15/highlights.json";
     "incoming/Superettan/2025-01-15/a.mp4";
     "pipeline_log_20250115_120000.txt"].
Proof. reflexivity. Qed.

(** *** Re-running *)

(** C7 (as stated) -- identical context and identical remote responses
    give identical keys.  Two runs with the same configuration and the
    same responses differ in the log key when the clock has moved by a
    second, and in the video key when [random.choice] draws the other
    candidate. *)
Lemma keys_differ_between_identical_runs :
  (same_responses env_fine env_fine_later
   /\ keys_written (snd (run cfg_demo env_fine))
      <> keys_written (snd (run cfg_demo env_fine_later)))
  /\ (same_responses env_fine env_fine_other_draw
      /\ keys_written (snd (run cfg_demo env_fine))
         <> keys_written (snd (run cfg_demo env_fine_other_draw))).
Proof.
  split; (split; [repeat split|]); vm_compute; discriminate.
Qed.

(** C7 (amended) -- Two runs with the same configuration, the same
    remote responses, the same draw of [random.choice] and the same clock
    readings request the same keys, in the same order, whatever the names
    of their temporary file and directory. *)
Theorem keys_repeat_with_same_draw_and_clock
    (cfg : Config) (e1 e2 : Env) :
  same_responses e1 e2 ->
  random_draw e1 = random_draw e2 ->
  (forall n, clock e1 n = clock e2 n) ->
  keys_written (snd (run cfg e1)) = keys_written (snd (run cfg e2)).
Proof.
  intros [Hf [Ht [Hs [Hm Hd]]]] Hr Hc. unfold keys_written. unfold_run.
  rewrite <- Hf, <- Ht, <- Hm, <- Hd, <- Hr.
  split_run_with ltac:(rewrite <- ?Hs, <- ?Hc).
  all: rewrite ?video_key_of_join; reflexivity.
Qed.

Lemma keys_repeat_with_same_draw_and_clock_witness :
  same_responses env_fine env_fine_other_names
  /\ random_draw env_fine = random_draw env_fine_other_names
  /\ (forall n, clock env_fine n = clock env_fine_other_names n)
  /\ keys_written (snd (run cfg_demo env_fine))
     = keys_written (snd (run cfg_demo env_fine_other_names)).
Proof.
  assert (H : same_responses env_fine env_fine_other_names)
    by (repeat split).
  split; [exact H|]. split; [reflexivity|]. split; [reflexivity|].
  apply (keys_repeat_with_same_draw_and_clock
           cfg_demo env_fine env_fine_other_names H);
    reflexivity.
Defined.

(** *** The empty document *)

(** C10 -- A fetch that succeeds with a falsy document is treated as a
    fetch failure: the run fails with the reason "No highlights fetched
    from API", no metadata or video request is made, the only request
    (when a log bucket is configured) is the put of the log object, and a
    run whose fetch raised leaves the same requests, the same status and
    the same result. *)
Theorem empty_document_is_fatal (cfg : Config) (env : Env) (doc : json) :
  fetch_response env = HttpOk doc ->
  truthy doc = false ->
  reported_status (snd (run cfg env))
  = Some (FAILURE "No highlights fetched from API")
  /\ s3_calls (snd (run cfg env))
     = match configured (LOGS_BUCKET cfg) with
       | Some bucket =>
           [mkCall (PutObject "Pipeline failed: No highlights fetched from API")
                   bucket (log_key (clock env 0)) (s3_response env 0)]
       | None => []
       end
  /\ forall e,
       let failed := run cfg (with_fetch env (HttpRaises e)) in
       s3_calls (snd failed) = s3_calls (snd (run cfg env))
       /\ fst failed = fst (run cfg env)
       /\ reported_status (snd failed) = reported_status (snd (run cfg env)).
Proof.
  intros Hf Ht.
  assert (Hrun : forall r,
            r = run cfg env \/ (exists e, r = run cfg (with_fetch env (HttpRaises e))) ->
            reported_status (snd r)
            = Some (FAILURE "No highlights fetched from API")
            /\ s3_calls (snd r)
               = match configured (LOGS_BUCKET cfg) with
                 | Some bucket =>
                     [mkCall (PutObject
                                "Pipeline failed: No highlights fetched from API")
                             bucket (log_key (clock env 0)) (s3_response env 0)]
                 | None => []
                 end
            /\ fst r = match configured (LOGS_BUCKET cfg) with
                       | Some _ =>
                           match s3_response env 0 with
                           | Some x => if is_ClientError x then inl tt else inr x
                           | None => inl tt
                           end
                       | None => inl tt
                       end).
  { intros r [->|[e ->]]; unfold_run; unfold with_fetch;
      cbn [fetch_response s3_response clock]; rewrite ?Hf.
    - eval_run. rewrite Ht. split_run; repeat split; reflexivity.
    - split_run; repeat split; reflexivity. }
  destruct (Hrun _ (or_introl eq_refl)) as [H1 [H2 H3]].
  split; [exact H1|]. split; [exact H2|].
  intros e failed.
  destruct (Hrun failed (or_intror (ex_intro _ e eq_refl))) as [H4 [H5 H6]].
  rewrite H1, H2, H3, H4, H5, H6. repeat split.
Qed.

Lemma empty_document_is_fatal_witness :
  fetch_response env_empty_document = HttpOk (JDict [])
  /\ truthy (JDict []) = false
  /\ reported_status (snd (run cfg_demo env_empty_document))
     = Some (FAILURE "No highlights fetched from API")
  /\ s3_calls (snd (run cfg_demo env_empty_document))
     = match configured (LOGS_BUCKET cfg_demo) with
       | Some bucket =>
           [mkCall (PutObject "Pipeline failed: No highlights fetched from API")
                   bucket (log_key (clock env_empty_document 0))
                   (s3_response env_empty_document 0)]
       | None => []
       end
  /\ forall e,
       let failed :=
         run cfg_demo (with_fetch env_empty_document (HttpRaises e)) in
       s3_calls (snd failed) = s3_calls (snd (run cfg_demo env_empty_document))
       /\ fst failed = fst (run cfg_demo env_empty_document)
       /\ reported_status (snd failed)
          = reported_status (snd (run cfg_demo env_empty_document)).
Proof.
  split; [reflexivity|]. split; [reflexivity|].
  apply (empty_document_is_fatal cfg_demo env_empty_document (JDict []));
    reflexivity.
Defined.

(** *** The log object *)



(** *** Finalization *)

(** C1 -- Exactly one log object is persisted and [main] never raises,
    even when the log persistence fails.  The code evaluated on two runs
    in which S3 cannot be reached, an error that is no [ClientError].
    When the fetch has failed too, the exception of the log upload leaves
    the handler of line 135: [main] raises and nothing is stored.  When
    every step has worked and only the first log upload fails, the
    handler takes the upload error for a failure of the run and uploads a
    second log: two log requests, and a run reported as failed. *)
Theorem main_raises_when_log_upload_is_unreachable :
  fst (run cfg_demo env_network_down) = inr unreachable
  /\ returned_normally (run cfg_demo env_network_down) = false
  /\ stored (snd (run cfg_demo env_network_down)) = []
  /\ log_bodies (snd (run cfg_demo env_log_upload_hiccup))
     = ["Pipeline completed successfully";
        "Pipeline failed: Could not connect to the endpoint URL"]
  /\ reported_status (snd (run cfg_demo env_log_upload_hiccup))
     = Some (FAILURE "Could not connect to the endpoint URL").
Proof. vm_compute. repeat split. Qed.

Ltac use_calls H :=
  repeat (apply Forall_cons_iff in H;
          let Hc := fresh "Hc" in
          destruct H as [Hc H]; cbn in Hc;
          try specialize (Hc eq_refl); try congruence).

(** What holds on every run: as long as no log upload raises anything
    but a [ClientError], [main] returns normally after exactly one log
    request, none when no log bucket is configured. *)
Lemma main_finalizes_once_on_client_errors (cfg : Config) (env : Env) :
  Forall (fun c => is_put c = true ->
                   match call_outcome c with
                   | Some e => is_ClientError e = true
                   | None => True
                   end)
         (s3_calls (snd (run cfg env))) ->
  returned_normally (run cfg env) = true
  /\ List.length (log_writes (snd (run cfg env)))
     = match configured (LOGS_BUCKET cfg) with Some _ => 1 | None => 0 end.
Proof.
  remember (run cfg env) as r eqn:Hr. intros H.
  unfold_run_in Hr. split_run_in Hr; subst r; cbn in H |- *.
  all: try (split; reflexivity).
  all: use_calls H.
Qed.

(** *** The download *)

(** C4 -- A run whose download does not succeed ends as a failure,
    also when no video bucket is configured.  The code evaluated on a run
    without a video bucket whose download raises: the return value of
    [download_video] is dropped at line 125, the error is logged, and the
    run goes on to its success summary, which is also the body of the
    log object. *)
Theorem failed_download_is_reported_as_success :
  messages_at ERROR (snd (run cfg_no_video_bucket env_download_fails))
  = ["Failed to download video: 404 Client Error: Not Found"]
  /\ reported_status (snd (run cfg_no_video_bucket env_download_fails))
     = Some SUCCESS
  /\ log_bodies (snd (run cfg_no_video_bucket env_download_fails))
     = ["Pipeline completed successfully"].
Proof. vm_compute. repeat split. Qed.

End PipelineFacts.

(* ================================================================== *)
(** * Further properties of the code                                    *)
(* ================================================================== *)

(* ------------------------------------------------------------------ *)
(** ** The selector and the file name of the selected URL               *)
(* ------------------------------------------------------------------ *)

Module SelectorExtra.
Import Json Selector SelectorMore.

(** X1 -- [walk] only appends, and in document order: the candidates
    already collected stay in front, unchanged, and the candidates of a
    sequence or of a map are those of its parts, one part after the
    other. *)
Theorem walk_keeps_document_order
    (doc : json) (acc : list string)
    (l1 l2 : list json) (d1 d2 : list (string * json)) :
  walk doc acc = acc ++ walk doc []
  /\ walk (JList (l1 ++ l2)) [] = walk (JList l1) [] ++ walk (JList l2) []
  /\ walk (JDict (d1 ++ d2)) [] = walk (JDict d1) [] ++ walk (JDict d2) [].
Proof.
  split; [apply SelectorFacts.walk_appends_only|]. split.
  - rewrite !SelectorFacts.walk_list. apply flat_map_app.
  - rewrite !SelectorFacts.walk_dict. apply flat_map_app.
Qed.

(** X2 -- Whatever [pick_random_video_from_json] returns is a string of
    the document that passes the test of line 49, it is one of the
    candidates of [walk], and it is never the empty string. *)
Theorem pick_returns_a_qualifying_string
    (doc : json) (draw : nat) (s : string) :
  pick_random_video_from_json doc draw = Some s ->
  In s (walk doc [])
  /\ In s (spec_qualifying_strings doc)
  /\ qualifies s = true
  /\ s <> ""%string.
Proof.
  intros H. apply SelectorFacts.pick_is_candidate in H.
  pose proof (SelectorFacts.candidates_qualify _ _ H) as Hq.
  split; [exact H|]. split; [now apply SelectorFacts.walk_sound|].
  split; [exact Hq|]. intros ->. discriminate Hq.
Qed.

Lemma pick_returns_a_qualifying_string_witness :
  pick_random_video_from_json doc_two_events 1 = Some "http://x/b.mp4"%string
  /\ In "http://x/b.mp4"%string (walk doc_two_events [])
  /\ In "http://x/b.mp4"%string (spec_qualifying_strings doc_two_events)
  /\ qualifies "http://x/b.mp4" = true
  /\ "http://x/b.mp4"%string <> ""%string.
Proof.
  split; [reflexivity|].
  apply (pick_returns_a_qualifying_string doc_two_events 1).
  reflexivity.
Defined.

(** X3 -- [pick_random_video_from_json] returns [None] exactly when
    [walk] collected no candidate, whatever the draw; with a candidate it
    returns one for every draw, and every candidate is returned for some
    draw. *)
Theorem pick_is_none_iff_no_candidate (doc : json) :
  (forall draw,
      pick_random_video_from_json doc draw = None <-> walk doc [] = [])
  /\ (forall s, In s (walk doc []) <->
                exists draw, pick_random_video_from_json doc draw = Some s).
Proof.
  split.
  - intros draw. rewrite SelectorFacts.pick_unfold. split.
    + intros H. destruct (walk doc []) as [|x r] eqn:E; [reflexivity|].
      destruct (SelectorFacts.random_choice_total draw (x :: r)) as [s Hs];
        [discriminate|]. rewrite Hs in H. discriminate H.
    + intros ->. reflexivity.
  - intros s. split; [apply SelectorFacts.pick_reaches_candidate|].
    intros [d Hd]. eapply SelectorFacts.pick_is_candidate; eassumption.
Qed.

(** X4 -- On a document whose strings all sit directly under maps the
    candidates are exactly the qualifying strings of the document, in
    depth-first order, so the selector returns [None] exactly when the
    document holds no string that ends in ".mp4" or begins with "http". *)
Theorem pick_is_exact_when_strings_sit_under_maps (doc : json) :
  strings_under_maps doc = true ->
  walk doc [] = spec_qualifying_strings doc
  /\ (spec_qualifying_strings doc = [] <->
      forall draw, pick_random_video_from_json doc draw = None).
Proof.
  intros H. pose proof (SelectorFacts.walk_complete_under_maps doc H) as E.
  split; [exact E|]. rewrite <- E. split.
  - intros E0 d. unfold pick_random_video_from_json. now rewrite E0.
  - intros Hn. destruct (walk doc []) as [|x r] eqn:Ew; [reflexivity|].
    destruct (SelectorFacts.random_choice_total 0 (x :: r)) as [s Hs];
      [discriminate|].
    specialize (Hn 0). rewrite SelectorFacts.pick_unfold, Ew, Hs in Hn.
    discriminate Hn.
Qed.

Lemma pick_is_exact_when_strings_sit_under_maps_witness :
  strings_under_maps doc_two_events = true
  /\ walk doc_two_events [] = spec_qualifying_strings doc_two_events
  /\ (spec_qualifying_strings doc_two_events = [] <->
      forall draw, pick_random_video_from_json doc_two_events draw = None).
Proof.
  split; [reflexivity|].
  apply (pick_is_exact_when_strings_sit_under_maps doc_two_events).
  reflexivity.
Defined.

Lemma walk_rename_keys (f : string -> string) (doc : json) :
  walk (rename_keys f doc) [] = walk doc [].
Proof.
  induction doc as [| | | | |l IH|l IH] using json_rect'; try reflexivity.
  - cbn [rename_keys]. rewrite !SelectorFacts.walk_list.
    rewrite Forall_forall in IH. rewrite flat_map_concat_map, map_map.
    rewrite <- flat_map_concat_map.
    now apply SelectorFacts.flat_map_ext_in.
  - cbn [rename_keys]. rewrite !SelectorFacts.walk_dict.
    rewrite Forall_forall in IH. rewrite flat_map_concat_map, map_map.
    rewrite <- flat_map_concat_map.
    apply SelectorFacts.flat_map_ext_in. intros [k v] Hin.
    specialize (IH _ Hin). unfold item_candidates. simpl in *.
    destruct v; try exact IH. reflexivity.
Qed.

(** X5 -- The selector never looks at a key: two documents that differ
    only in the names of their keys have the same candidates, and the
    same URL is returned for the same draw. *)
Theorem selection_ignores_keys
    (f : string -> string) (doc : json) (draw : nat) :
  walk (rename_keys f doc) [] = walk doc []
  /\ pick_random_video_from_json (rename_keys f doc) draw
     = pick_random_video_from_json doc draw.
Proof.
  split; [apply walk_rename_keys|].
  now rewrite !SelectorFacts.pick_unfold, walk_rename_keys.
Qed.

End SelectorExtra.

(* ------------------------------------------------------------------ *)
(** ** File names and time stamps                                       *)
(* ------------------------------------------------------------------ *)

Module NamesExtra.
Import PyStr Pipeline.
Local Open Scope string_scope.

Lemma split_ends_with_suffix (sep : ascii) (a n : string) :
  mem_char sep n = false ->
  exists pre y, split sep (a ++ n) = (pre ++ [(y ++ n)%string])%list.
Proof.
  intros Hn. induction a as [|c r IH]; simpl.
  - exists [], "". simpl. now apply PyStrFacts.split_without_sep.
  - destruct IH as [pre [y E]]. destruct (Ascii.eqb c sep).
    + exists ("" :: pre)%list, y. simpl. now rewrite E.
    + rewrite E. destruct pre as [|h t]; simpl.
      * exists [], (String c y). reflexivity.
      * exists (String c h :: t)%list, y. reflexivity.
Qed.

Lemma kept_with_mp4 (y : string) : kept_part (y ++ ".mp4") = true.
Proof.
  destruct y as [|c [|d y]]; try reflexivity;
    unfold kept_part; simpl; destruct (Ascii.eqb c "."); reflexivity.
Qed.

Lemma path_name_of_kept_part (p x : string) :
  In x (split slash p) -> kept_part x = true -> path_name p <> "".
Proof.
  intros Hin Hk. unfold path_name.
  assert (Hf : In x (filter kept_part (split slash p)))
    by (apply filter_In; now split).
  destruct (filter kept_part (split slash p)) as [|z l] eqn:E;
    [destruct Hf|].
  assert (Hl : In (last (z :: l) "") (filter kept_part (split slash p))).
  { rewrite E. apply PyStrFacts.last_in. discriminate. }
  apply filter_In in Hl. destruct Hl as [_ Hl]. intros E0.
  rewrite E0 in Hl. discriminate Hl.
Qed.

Lemma qualifying_url_has_a_name (url : string) :
  Selector.qualifies url = true -> path_name url <> "".
Proof.
  unfold Selector.qualifies. intros H. apply orb_true_iff in H.
  destruct H as [H|H].
  - destruct (PyStrFacts.endswith_app _ _ H) as [a ->].
    destruct (split_ends_with_suffix slash a ".mp4" eq_refl) as [pre [y E]].
    apply (path_name_of_kept_part _ (y ++ ".mp4")); [|apply kept_with_mp4].
    rewrite E. apply in_or_app. right. now left.
  - destruct url as [|c r]; [discriminate H|].
    unfold startswith in H. cbn [String.prefix] in H.
    destruct (ascii_dec "h" c) as [<-|]; [|discriminate H].
    pose proof (PyStrFacts.split_not_nil slash r) as Hne.
    apply (path_name_of_kept_part _
             (String "h" (hd "" (split slash r)))); [|reflexivity].
    simpl. destruct (split slash r) as [|h t]; [contradiction|]. now left.
Qed.

(** X6 -- For every URL that the selector returns, [pathlib] finds a
    name: the fallback ["video.mp4"] of line 124 is never used, the local
    file is named after the last segment of the URL, and that name holds
    no slash. *)
Theorem selected_url_names_the_file
    (doc : Json.json) (draw : nat) (url : string) :
  Selector.pick_random_video_from_json doc draw = Some url ->
  video_filename url = path_name url
  /\ path_name url <> ""
  /\ mem_char slash (video_filename url) = false.
Proof.
  intros H. apply SelectorFacts.pick_is_candidate in H.
  apply SelectorFacts.candidates_qualify in H.
  pose proof (qualifying_url_has_a_name url H) as Hn.
  split; [|split; [exact Hn|apply PipelineFacts.video_filename_is_a_name]].
  unfold video_filename, str_or.
  destruct (String.eqb (path_name url) "") eqn:E; [|reflexivity].
  apply String.eqb_eq in E. contradiction.
Qed.

Lemma selected_url_names_the_file_witness :
  Selector.pick_random_video_from_json Selector.doc_two_events 0
  = Some "http://x/a.mp4"
  /\ video_filename "http://x/a.mp4" = path_name "http://x/a.mp4"
  /\ path_name "http://x/a.mp4" <> ""
  /\ mem_char slash (video_filename "http://x/a.mp4") = false.
Proof.
  split; [reflexivity|].
  apply (selected_url_names_the_file Selector.doc_two_events 0).
  reflexivity.
Defined.

(** *** Stamps *)

Lemma digit_inj (a b : N) :
  (a < 10)%N -> (b < 10)%N -> digit a = digit b -> a = b.
Proof.
  intros Ha Hb H. unfold digit in H.
  apply (f_equal N_of_ascii) in H.
  rewrite !N_ascii_embedding in H by lia. lia.
Qed.

Lemma two_digits_inj (a b : N) :
  (a < 100)%N -> (b < 100)%N ->
  digit (a / 10) = digit (b / 10) -> digit (a mod 10) = digit (b mod 10) ->
  a = b.
Proof.
  intros Ha Hb H1 H2.
  apply digit_inj in H1;
    [|apply N.Div0.div_lt_upper_bound; lia
     |apply N.Div0.div_lt_upper_bound; lia].
  apply digit_inj in H2; [|apply N.mod_lt; discriminate
                          |apply N.mod_lt; discriminate].
  rewrite (N.Div0.div_mod a 10), (N.Div0.div_mod b 10). now rewrite H1, H2.
Qed.

Lemma strftime_compact_inj (t1 t2 : datetime) :
  valid_datetime t1 = true -> valid_datetime t2 = true ->
  strftime_compact t1 = strftime_compact t2 -> t1 = t2.
Proof.
  destruct t1 as [y1 mo1 d1 h1 mi1 s1], t2 as [y2 mo2 d2 h2 mi2 s2].
  unfold valid_datetime. simpl.
  rewrite !andb_true_iff, !N.leb_le. intros V1 V2.
  unfold strftime_compact, pad4, pad2. simpl. intros H.
  injection H as Ha Hb Hc Hd He Hf Hg Hh Hi Hj Hk Hl Hm Hn.
  assert (Ey : y1 = y2).
  { assert (E1 : (y1 mod 100 = y2 mod 100)%N).
    { apply two_digits_inj; try (apply N.mod_lt; discriminate); assumption. }
    assert (E2 : (y1 / 100 = y2 / 100)%N).
    { apply two_digits_inj;
        try (apply N.Div0.div_lt_upper_bound; lia); [|assumption].
      rewrite !N.Div0.div_div. exact Ha. }
    rewrite (N.Div0.div_mod y1 100), (N.Div0.div_mod y2 100).
    now rewrite E1, E2. }
  assert (Emo : mo1 = mo2) by (apply two_digits_inj; try lia; assumption).
  assert (Ed : d1 = d2) by (apply two_digits_inj; try lia; assumption).
  assert (Eh : h1 = h2) by (apply two_digits_inj; try lia; assumption).
  assert (Emi : mi1 = mi2) by (apply two_digits_inj; try lia; assumption).
  assert (Es : s1 = s2) by (apply two_digits_inj; try lia; assumption).
  now subst.
Qed.

Lemma append_inj_l (a x y : string) : a ++ x = a ++ y -> x = y.
Proof.
  induction a as [|c a IH]; simpl; intros H; [exact H|].
  injection H as H. now apply IH.
Qed.

Lemma append_inj_r (x y b : string) : x ++ b = y ++ b -> 
  String.length x = String.length y -> x = y.
Proof.
  revert y. induction x as [|c x IH]; intros [|d y] H Hl;
    try discriminate Hl; [reflexivity|].
  simpl in H. injection H as -> H. f_equal. apply IH; [exact H|].
  simpl in Hl. lia.
Qed.

Lemma strftime_compact_length (t : datetime) :
  String.length (strftime_compact t) = 15.
Proof. reflexivity. Qed.

(** X7 -- The key of a log object tells the second it was written in:
    two valid clock readings give the same log key exactly when they are
    the same reading.  Log objects written in different seconds never
    overwrite each other, and two written within one second always do. *)
Theorem log_key_tells_the_second (t1 t2 : datetime) :
  valid_datetime t1 = true ->
  valid_datetime t2 = true ->
  (log_key t1 = log_key t2 <-> t1 = t2).
Proof.
  intros V1 V2. split; [|now intros ->].
  unfold log_key. intros H. apply append_inj_l in H.
  apply append_inj_r in H; [|now rewrite !strftime_compact_length].
  now apply strftime_compact_inj.
Qed.

Lemma log_key_tells_the_second_witness :
  valid_datetime noon = true
  /\ valid_datetime noon_and_a_second = true
  /\ (log_key noon = log_key noon_and_a_second <-> noon = noon_and_a_second).
Proof.
  split; [reflexivity|]. split; [reflexivity|].
  apply (log_key_tells_the_second noon noon_and_a_second); reflexivity.
Defined.

End NamesExtra.

(* ------------------------------------------------------------------ *)
(** ** The poll loop                                                    *)
(* ------------------------------------------------------------------ *)

Module PollExtra.
Import Json Transcode TranscodeMore.
Local Open Scope Z_scope.

(** The loop from its [n]-th query to a terminal answer at the [k]-th,
    with instantaneous queries. *)
Lemma poll_loop_reaches_terminal
    (mc : provider) (interval timeout t0 : Z) (k : nat) :
  0 <= interval ->
  (forall n, query_time mc n = 0) ->
  (forall j, (j < k)%nat -> is_terminal (job_status (get_job mc j)) = false) ->
  is_terminal (job_status (get_job mc k)) = true ->
  (k = 0%nat \/ (Z.of_nat k - 1) * interval <= timeout) ->
  forall m n, (n + m = k)%nat ->
    poll_loop (S m) mc interval timeout t0 (t0 + Z.of_nat n * interval) n
    = Some (mkPollResult (job_status (get_job mc k)) (get_job mc k)
                         (t0 + Z.of_nat k * interval)).
Proof.
  intros Hint Hq Hbefore Hk Hto.
  induction m as [|m IH]; intros n Hn; cbn [poll_loop]; rewrite Hq, Z.add_0_r.
  - assert (n = k) by lia. subst n. now rewrite Hk.
  - rewrite (Hbefore n) by lia.
    assert (Hle : t0 + Z.of_nat n * interval - t0 <= timeout) by nia.
    destruct (Z.gtb_spec (t0 + Z.of_nat n * interval - t0) timeout); [lia|].
    replace (t0 + Z.of_nat n * interval + interval)
      with (t0 + Z.of_nat (S n) * interval) by lia.
    apply IH. lia.
Qed.

(** X8 -- With instantaneous queries, [poll_job] returns the first
    terminal status the job reports, with the response that carried it
    and after one interval per earlier query, provided the query before
    it was made within the timeout.  A terminal status wins over the
    timeout at the same query, and a first answer that is terminal is
    returned at once whatever the timeout, a negative one included. *)
Theorem poll_job_returns_first_terminal_status
    (mc : provider) (interval timeout t0 : Z) (k : nat) :
  0 <= interval ->
  (forall n, query_time mc n = 0) ->
  (forall j, (j < k)%nat -> is_terminal (job_status (get_job mc j)) = false) ->
  is_terminal (job_status (get_job mc k)) = true ->
  (k = 0%nat \/ (Z.of_nat k - 1) * interval <= timeout) ->
  forall fuel, (k < fuel)%nat ->
    poll_job fuel mc interval timeout t0
    = Some (mkPollResult (job_status (get_job mc k)) (get_job mc k)
                         (t0 + Z.of_nat k * interval)).
Proof.
  intros Hint Hq Hbefore Hk Hto fuel Hfuel. unfold poll_job.
  apply (TranscodeFacts.poll_loop_more_fuel mc interval timeout t0 (S k));
    [|lia].
  pose proof (poll_loop_reaches_terminal mc interval timeout t0 k
                Hint Hq Hbefore Hk Hto k 0%nat eq_refl) as H.
  simpl (Z.of_nat 0) in H. rewrite Z.mul_0_l, Z.add_0_r in H. exact H.
Qed.

Lemma poll_job_returns_first_terminal_status_witness :
  0 <= 10
  /\ (forall n, query_time done_at_third n = 0)
  /\ (forall j, (j < 2)%nat ->
                is_terminal (job_status (get_job done_at_third j)) = false)
  /\ is_terminal (job_status (get_job done_at_third 2)) = true
  /\ (2%nat = 0%nat \/ (Z.of_nat 2 - 1) * 10 <= 15)
  /\ forall fuel, (2 < fuel)%nat ->
       poll_job fuel done_at_third 10 15 0
       = Some (mkPollResult (job_status (get_job done_at_third 2))
                            (get_job done_at_third 2)
                            (0 + Z.of_nat 2 * 10)).
Proof.
  assert (H2 : forall j, (j < 2)%nat ->
                 is_terminal (job_status (get_job done_at_third j)) = false).
  { intros j Hj. destruct j as [|[|j]]; [reflexivity|reflexivity|lia]. }
  split; [lia|]. split; [intros n; reflexivity|]. split; [exact H2|].
  split; [reflexivity|]. split; [right; simpl; lia|].
  apply (poll_job_returns_first_terminal_status done_at_third 10 15 0 2).
  - lia.
  - intros n. reflexivity.
  - exact H2.
  - reflexivity.
  - right. simpl. lia.
Defined.

(** The loop on a job that never ends, from its [n]-th query on. *)
Lemma poll_loop_times_out
    (mc : provider) (interval timeout t0 : Z) (k : nat) :
  0 < interval ->
  (forall n, query_time mc n = 0) ->
  (forall n, is_terminal (job_status (get_job mc n)) = false) ->
  (Z.of_nat k - 1) * interval <= timeout < Z.of_nat k * interval ->
  forall m n, (n + m = k)%nat ->
    poll_loop (S m) mc interval timeout t0 (t0 + Z.of_nat n * interval) n
    = Some (mkPollResult "TIMEOUT" (get_job mc k)
                         (t0 + Z.of_nat k * interval)).
Proof.
  intros Hint Hq Hnever Hk.
  induction m as [|m IH]; intros n Hn; cbn [poll_loop];
    rewrite Hq, Z.add_0_r, Hnever.
  - assert (n = k) by lia. subst n.
    destruct (Z.gtb_spec (t0 + Z.of_nat k * interval - t0) timeout);
      [reflexivity|lia].
  - destruct (Z.gtb_spec (t0 + Z.of_nat n * interval - t0) timeout); [nia|].
    replace (t0 + Z.of_nat n * interval + interval)
      with (t0 + Z.of_nat (S n) * interval) by lia.
    apply IH. lia.
Qed.

(** X9 -- With instantaneous queries, on a job that never reaches a
    terminal status [poll_job] gives up exactly
    [(timeout / interval + 1) * interval] after it started: it makes
    [timeout / interval + 2] queries, the last one strictly after the
    timeout, and returns TIMEOUT with the response of that last query. *)
Theorem poll_job_times_out_exactly
    (mc : provider) (interval timeout t0 : Z) :
  0 < interval ->
  0 <= timeout ->
  (forall n, query_time mc n = 0) ->
  (forall n, is_terminal (job_status (get_job mc n)) = false) ->
  forall fuel, (Z.to_nat (timeout / interval + 1) < fuel)%nat ->
    poll_job fuel mc interval timeout t0
    = Some (mkPollResult "TIMEOUT"
              (get_job mc (Z.to_nat (timeout / interval + 1)))
              (t0 + (timeout / interval + 1) * interval)).
Proof.
  intros Hint Hto Hq Hnever fuel Hfuel. unfold poll_job.
  set (k := Z.to_nat (timeout / interval + 1)) in *.
  assert (Hdiv : 0 <= timeout / interval) by (apply Z.div_pos; lia).
  assert (Hk : Z.of_nat k = timeout / interval + 1)
    by (unfold k; rewrite Z2Nat.id; lia).
  apply (TranscodeFacts.poll_loop_more_fuel mc interval timeout t0 (S k));
    [|lia].
  assert (Hbounds : (Z.of_nat k - 1) * interval <= timeout
                    < Z.of_nat k * interval).
  { rewrite Hk.
    pose proof (Z.mul_div_le timeout interval Hint).
    pose proof (Z.mul_succ_div_gt timeout interval Hint). nia. }
  pose proof (poll_loop_times_out mc interval timeout t0 k Hint Hq Hnever
                Hbounds k 0%nat eq_refl) as H.
  simpl (Z.of_nat 0) in H. rewrite Z.mul_0_l, Z.add_0_r, Hk in H. exact H.
Qed.

Lemma poll_job_times_out_exactly_witness :
  0 < 10
  /\ 0 <= 30
  /\ (forall n, query_time stuck_job n = 0)
  /\ (forall n, is_terminal (job_status (get_job stuck_job n)) = false)
  /\ forall fuel, (Z.to_nat (30 / 10 + 1) < fuel)%nat ->
       poll_job fuel stuck_job 10 30 0
       = Some (mkPollResult "TIMEOUT"
                 (get_job stuck_job (Z.to_nat (30 / 10 + 1)))
                 (0 + (30 / 10 + 1) * 10)).
Proof.
  split; [lia|]. split; [lia|]. split; [intros n; reflexivity|].
  split; [intros n; reflexivity|].
  apply (poll_job_times_out_exactly stuck_job 10 30 0).
  - lia.
  - lia.
  - intros n. reflexivity.
  - intros n. reflexivity.
Defined.

(** X10 -- With an interval of zero and instantaneous queries, a job
    that never reaches a terminal status is polled for ever: the clock
    never passes the timeout and no amount of fuel makes [poll_job]
    return. *)
Theorem poll_job_with_zero_interval_never_returns
    (mc : provider) (timeout t0 : Z) (fuel : nat) :
  0 <= timeout ->
  (forall n, query_time mc n = 0) ->
  (forall n, is_terminal (job_status (get_job mc n)) = false) ->
  poll_job fuel mc 0 timeout t0 = None.
Proof.
  intros Hto Hq Hnever. unfold poll_job. generalize 0%nat.
  induction fuel as [|fuel IH]; intros n; [reflexivity|].
  cbn [poll_loop]. rewrite Hq, !Z.add_0_r, Hnever.
  destruct (Z.gtb_spec (t0 - t0) timeout); [lia|]. apply IH.
Qed.

Lemma poll_job_with_zero_interval_never_returns_witness :
  0 <= 30
  /\ (forall n, query_time stuck_job n = 0)
  /\ (forall n, is_terminal (job_status (get_job stuck_job n)) = false)
  /\ poll_job 1000 stuck_job 0 30 0 = None.
Proof.
  split; [lia|]. split; [intros n; reflexivity|].
  split; [intros n; reflexivity|].
  apply (poll_job_with_zero_interval_never_returns stuck_job 30 0 1000).
  - lia.
  - intros n. reflexivity.
  - intros n. reflexivity.
Defined.

End PollExtra.

(* ------------------------------------------------------------------ *)
(** ** The orchestrator                                                 *)
(* ------------------------------------------------------------------ *)

Module PipelineExtra.
Import Json Pipeline PipelineMore PipelineFacts.
Local Open Scope string_scope.

(** X11 -- [fetch_highlights] never raises and touches neither S3 nor
    the clock: it returns the parsed document when the exchange works,
    and [None] after logging the error when anything is raised, an HTTP
    error or not.  A body that parses to [null] and a failed request give
    the caller the same value. *)
Theorem fetch_highlights_never_raises (cfg : Config) (env : Env) (w : World) :
  exists v,
    fst (fetch_highlights cfg env w) = inl v
    /\ s3_calls (snd (fetch_highlights cfg env w)) = s3_calls w
    /\ clock_reads (snd (fetch_highlights cfg env w)) = clock_reads w
    /\ match fetch_response env with
       | HttpOk data => v = data
       | HttpRaises e =>
           v = JNull
           /\ In (ERROR,
                  (if is_HTTPError e then "HTTP error fetching highlights: "
                   else "Error fetching highlights: ") ++ exn_text e)
                 (log_stream (snd (fetch_highlights cfg env w)))
       end.
Proof.
  unfold fetch_highlights, try_except, bind, log, raise, ret.
  destruct (fetch_response env) as [data|e]; cbn.
  - exists data. repeat split.
  - exists JNull. destruct (is_HTTPError e); cbn; repeat split;
      apply in_or_app; right; now left.
Qed.

(** *** Runs that differ in one kind of answer

    A small relational logic for the statements of [main]: two runs are
    followed side by side through worlds that a relation [R] keeps
    together. *)

Section Simulation.
Variable R : World -> World -> Prop.
Hypothesis R_log : forall w1 w2 r1 r2,
  R w1 w2 -> summary_of r1 = summary_of r2 ->
  R (add_log w1 r1) (add_log w2 r2).
Hypothesis R_clock : forall w1 w2, R w1 w2 -> clock_reads w1 = clock_reads w2.
Hypothesis R_tick : forall w1 w2, R w1 w2 -> R (tick w1) (tick w2).

Lemma sim_ret {A : Type} (a : A) : sim R (ret a) (ret a).
Proof. intros w1 w2 H. now split. Qed.

Lemma sim_raise {A : Type} (e : pyexn) : sim R (@raise A e) (raise e).
Proof. intros w1 w2 H. now split. Qed.

Lemma sim_bind {A B : Type} (m1 m2 : M A) (k1 k2 : A -> M B) :
  sim R m1 m2 -> (forall a, sim R (k1 a) (k2 a)) ->
  sim R (bind m1 k1) (bind m2 k2).
Proof.
  intros Hm Hk w1 w2 H. unfold bind. destruct (Hm w1 w2 H) as [E Hw].
  destruct (m1 w1) as [[a|e] w1'], (m2 w2) as [[b|e'] w2'];
    simpl in E, Hw; try discriminate E.
  - injection E as <-. now apply Hk.
  - injection E as <-. now split.
Qed.

Lemma sim_bind_returns {A A' B : Type} (m1 : M A) (m2 : M A')
    (k1 k2 : M B) :
  sim_returns R m1 m2 -> sim R k1 k2 ->
  sim R (bind m1 (fun _ => k1)) (bind m2 (fun _ => k2)).
Proof.
  intros Hm Hk w1 w2 H. unfold bind.
  destruct (Hm w1 w2 H) as [[a Ea] [[b Eb] Hw]].
  destruct (m1 w1) as [[a'|e] w1'], (m2 w2) as [[b'|e'] w2'];
    simpl in Ea, Eb, Hw; try discriminate. now apply Hk.
Qed.

Lemma sim_try {A : Type} (b1 b2 : M A) (handles : pyexn -> bool)
    (h1 h2 : pyexn -> M A) :
  sim R b1 b2 -> (forall e, sim R (h1 e) (h2 e)) ->
  sim R (try_except b1 handles h1) (try_except b2 handles h2).
Proof.
  intros Hb Hh w1 w2 H. unfold try_except. destruct (Hb w1 w2 H) as [E Hw].
  destruct (b1 w1) as [[a|e] w1'], (b2 w2) as [[b|e'] w2'];
    simpl in E, Hw; try discriminate E.
  - injection E as <-. now split.
  - injection E as <-. destruct (handles e); [now apply Hh|now split].
Qed.

Lemma sim_log (lvl1 lvl2 : level) (m1 m2 : string) :
  summary_of (lvl1, m1) = summary_of (lvl2, m2) ->
  sim R (log lvl1 m1) (log lvl2 m2).
Proof.
  intros E w1 w2 H. split; [reflexivity|]. now apply (R_log w1 w2 _ _ H).
Qed.

Lemma sim_now (e1 e2 : Env) :
  clock e1 = clock e2 -> sim R (datetime_now e1) (datetime_now e2).
Proof.
  intros E w1 w2 H. unfold datetime_now. simpl. split.
  - now rewrite E, (R_clock _ _ H).
  - apply (R_tick w1 w2 H).
Qed.

(** [main] of two environments that agree on everything but the
    download and the answers of S3, once the three helpers that read
    those are known to go together. *)
Section Main.
Variable cfg : Config.
Variables e1 e2 : Env.
Hypothesis same_fetch : fetch_response e1 = fetch_response e2.
Hypothesis same_mktemp : mktemp_name e1 = mktemp_name e2.
Hypothesis same_write : tempfile_write e1 = tempfile_write e2.
Hypothesis same_draw : random_draw e1 = random_draw e2.
Hypothesis same_mkdtemp : mkdtemp_name e1 = mkdtemp_name e2.
Hypothesis same_mkdtemp_error : mkdtemp_error e1 = mkdtemp_error e2.
Hypothesis sim_upload : forall bucket key path,
  sim R (upload_file_to_s3 e1 bucket key path)
        (upload_file_to_s3 e2 bucket key path).
Hypothesis sim_logs : forall content,
  sim R (upload_logs cfg e1 content) (upload_logs cfg e2 content).
Hypothesis sim_download : forall url path,
  sim_returns R (download_video e1 url path) (download_video e2 url path).

Ltac sim_go :=
  repeat first
    [ apply sim_ret
    | apply sim_raise
    | apply sim_upload
    | apply sim_logs
    | apply sim_log; reflexivity
    | apply sim_bind_returns; [apply sim_download|]
    | apply sim_bind; [|intros ?]
    | apply sim_try; [|intros ?]
    | match goal with
      | |- sim _ (match ?x with _ => _ end) (match ?x with _ => _ end) =>
          destruct x
      end ].

Lemma sim_fetch : sim R (fetch_highlights cfg e1) (fetch_highlights cfg e2).
Proof.
  unfold fetch_highlights. rewrite <- same_fetch. sim_go.
Qed.

Lemma sim_main : sim R (main cfg e1) (main cfg e2).
Proof.
  unfold main. apply sim_bind; [apply sim_log; reflexivity|intros _].
  apply sim_try; [|intros e; sim_go].
  unfold main_body, may_raise.
  rewrite <- same_mktemp, <- same_write, <- same_draw, <- same_mkdtemp,
    <- same_mkdtemp_error.
  apply sim_bind; [apply sim_fetch|intros highlights]. cbv zeta.
  sim_go.
Qed.

End Main.
End Simulation.

Lemma summaries_add_log (w : World) (r : level * string) :
  summaries (add_log w r) = (summaries w ++ summary_of r)%list.
Proof.
  unfold summaries, add_log. simpl. rewrite flat_map_app. simpl.
  now rewrite app_nil_r.
Qed.

Lemma same_but_log_log (w1 w2 : World) (r1 r2 : level * string) :
  same_but_log w1 w2 -> summary_of r1 = summary_of r2 ->
  same_but_log (add_log w1 r1) (add_log w2 r2).
Proof.
  intros [Hs [Hc Hl]] E. repeat split; try assumption.
  now rewrite !summaries_add_log, Hl, E.
Qed.

Lemma reported_status_of_summaries (w1 w2 : World) :
  summaries w1 = summaries w2 -> reported_status w1 = reported_status w2.
Proof. unfold reported_status, summaries. now intros ->. Qed.

(** The download of two environments, whatever it answers in each. *)
Lemma download_goes_along (R : World -> World -> Prop) (e1 e2 : Env)
    (url path : string) :
  (forall w1 w2 r1 r2, R w1 w2 -> summary_of r1 = summary_of r2 ->
                       R (add_log w1 r1) (add_log w2 r2)) ->
  sim_returns R (download_video e1 url path) (download_video e2 url path).
Proof.
  intros R_log w1 w2 H.
  unfold download_video, try_except, bind, may_raise, raise, ret, log.
  destruct (download_response e1), (download_response e2); simpl;
    (split; [eauto|split; [eauto|]]);
    apply (R_log (add_log w1 _) (add_log w2 _)); try reflexivity;
    apply (R_log w1 w2); try reflexivity; exact H.
Qed.

Ltac related Hs Hc Hl :=
  repeat split; simpl;
  first [ assumption
        | now rewrite Hs
        | now rewrite Hc
        | rewrite !map_app, Hs; reflexivity
        | unfold summaries in *; simpl; rewrite !flat_map_app, Hl;
          reflexivity ].

(** Requests of two environments with the same answers of S3. *)
Lemma upload_goes_along_same_answers (e1 e2 : Env)
    (bucket key path : string) :
  (forall n, s3_response e1 n = s3_response e2 n) ->
  sim same_but_log (upload_file_to_s3 e1 bucket key path)
                   (upload_file_to_s3 e2 bucket key path).
Proof.
  intros Hs3 w1 w2 [Hs [Hc Hl]].
  unfold upload_file_to_s3, try_except, bind, s3_send, log.
  rewrite Hs3, Hs. destruct (s3_response e2 _) as [e|]; simpl.
  - destruct (is_ClientError e); simpl; (split; [reflexivity|]);
      related Hs Hc Hl.
  - split; [reflexivity|]. related Hs Hc Hl.
Qed.

Lemma logs_go_along_same_answers (cfg : Config) (e1 e2 : Env)
    (content : string) :
  (forall n, s3_response e1 n = s3_response e2 n) ->
  clock e1 = clock e2 ->
  sim same_but_log (upload_logs cfg e1 content) (upload_logs cfg e2 content).
Proof.
  intros Hs3 Hclock w1 w2 [Hs [Hc Hl]].
  unfold upload_logs.
  destruct (configured (LOGS_BUCKET cfg)) as [bucket|].
  - unfold try_except, bind, s3_send, datetime_now, log. simpl.
    rewrite Hs3, Hs, Hc, Hclock.
    destruct (s3_response e2 _) as [e|]; simpl.
    + destruct (is_ClientError e); simpl; (split; [reflexivity|]);
        related Hs Hc Hl.
    + split; [reflexivity|]. related Hs Hc Hl.
  - unfold log. simpl. split; [reflexivity|]. related Hs Hc Hl.
Qed.

(** X12 -- Without a video bucket nothing reads what [download_video]
    leaves behind: whether the download works or raises, and whatever it
    raises, [main] makes the same S3 requests with the same answers, ends
    the same way and reports the same status. *)
Theorem download_outcome_changes_nothing_else
    (cfg : Config) (env : Env) (r : option pyexn) :
  configured (VIDEOS_BUCKET cfg) = None ->
  s3_calls (snd (run cfg (Download.with_download env r)))
  = s3_calls (snd (run cfg env))
  /\ fst (run cfg (Download.with_download env r)) = fst (run cfg env)
  /\ reported_status (snd (run cfg (Download.with_download env r)))
     = reported_status (snd (run cfg env)).
Proof.
  intros _.
  assert (H : sim same_but_log (main cfg (Download.with_download env r))
                               (main cfg env)).
  { apply sim_main; try reflexivity.
    - exact same_but_log_log.
    - intros b k p. now apply upload_goes_along_same_answers.
    - intros c. now apply logs_go_along_same_answers.
    - intros u p. apply download_goes_along. exact same_but_log_log. }
  destruct (H fresh_world fresh_world) as [E [Hs [_ Hl]]];
    [repeat split|].
  unfold run. split; [exact Hs|]. split; [exact E|].
  now apply reported_status_of_summaries.
Qed.

Lemma download_outcome_changes_nothing_else_witness :
  configured (VIDEOS_BUCKET cfg_no_video_bucket) = None
  /\ s3_calls (snd (run cfg_no_video_bucket
                        (Download.with_download env_fine
                           (Some (mkExn HTTPError
                                        "404 Client Error: Not Found")))))
     = s3_calls (snd (run cfg_no_video_bucket env_fine))
  /\ fst (run cfg_no_video_bucket
              (Download.with_download env_fine
                 (Some (mkExn HTTPError "404 Client Error: Not Found"))))
     = fst (run cfg_no_video_bucket env_fine)
  /\ reported_status
       (snd (run cfg_no_video_bucket
               (Download.with_download env_fine
                  (Some (mkExn HTTPError "404 Client Error: Not Found")))))
     = reported_status (snd (run cfg_no_video_bucket env_fine)).
Proof.
  split; [reflexivity|].
  apply (download_outcome_changes_nothing_else cfg_no_video_bucket env_fine).
  reflexivity.
Defined.

(** The summary lines, for any text of the exception. *)
Lemma substring_all (x : string) : String.substring 0 (String.length x) x = x.
Proof. induction x as [|c x IH]; simpl; [reflexivity|now rewrite IH]. Qed.

Lemma summary_of_failure (x : string) :
  summary_of (ERROR, "Pipeline failed: " ++ x) = [FAILURE x].
Proof.
  cbn. rewrite Nat.sub_0_r, substring_all. now destruct x.
Qed.

Lemma summary_of_failure_evaluated (x : string) :
  (if String.prefix "" x
   then [FAILURE (String.substring 0 (String.length x - 0) x)] else [])
  = [FAILURE x].
Proof. exact (summary_of_failure x). Qed.

(** X14 -- A [ClientError] on the upload of the log is advisory and
    final: in every run, a [put_object] that is answered with a
    [ClientError] is the last request of the run (it is not retried),
    [main] returns normally, the last two records given to the logger
    are the summary line, which is the body the object carried, and
    "Failed to upload logs: " with the text of the error, and the run is
    reported as that summary line says. *)
Theorem log_upload_client_error_is_advisory
    (cfg : Config) (env : Env) (c : s3_call) (e : pyexn) :
  In c (log_writes (snd (run cfg env))) ->
  call_outcome c = Some e ->
  is_ClientError e = true ->
  hd_error (rev (s3_calls (snd (run cfg env)))) = Some c
  /\ returned_normally (run cfg env) = true
  /\ exists lvl body rest,
       call_request c = PutObject body
       /\ rev (log_stream (snd (run cfg env)))
          = (ERROR, "Failed to upload logs: " ++ exn_text e)
            :: (lvl, body) :: rest
       /\ ((lvl = INFO /\ body = "Pipeline completed successfully"
            /\ reported_status (snd (run cfg env)) = Some SUCCESS)
           \/ (exists reason,
                 lvl = ERROR /\ body = "Pipeline failed: " ++ reason
                 /\ reported_status (snd (run cfg env))
                    = Some (FAILURE reason))).
Proof.
  remember (run cfg env) as r eqn:Hr. intros Hin Hout Hce.
  unfold_run_in Hr. split_run_in Hr; subst r; cbn in Hin |- *.
  all: repeat (destruct Hin as [Hin|Hin]; [subst c; cbn in Hout|]);
    try contradiction; try discriminate Hout;
    try (injection Hout as <-); try congruence.
  all: split; [reflexivity|]; split; [reflexivity|];
    do 3 eexists; split; [reflexivity|]; split; [reflexivity|].
  all: first
    [ left; split; [reflexivity|]; split; reflexivity
    | right; eexists; split; [reflexivity|]; split; [reflexivity|];
      rewrite ?summary_of_failure_evaluated; reflexivity ].
Qed.

Lemma log_upload_client_error_is_advisory_witness :
  In (mkCall (PutObject "Pipeline completed successfully") "log-bucket"
             "pipeline_log_20250115_120000.txt" (Some log_refused))
     (log_writes (snd (run cfg_demo env_log_refused)))
  /\ call_outcome
       (mkCall (PutObject "Pipeline completed successfully") "log-bucket"
               "pipeline_log_20250115_120000.txt" (Some log_refused))
     = Some log_refused
  /\ is_ClientError log_refused = true
  /\ hd_error (rev (s3_calls (snd (run cfg_demo env_log_refused))))
     = Some (mkCall (PutObject "Pipeline completed successfully")
                    "log-bucket" "pipeline_log_20250115_120000.txt"
                    (Some log_refused))
  /\ returned_normally (run cfg_demo env_log_refused) = true
  /\ exists lvl body rest,
       call_request
         (mkCall (PutObject "Pipeline completed successfully") "log-bucket"
                 "pipeline_log_20250115_120000.txt" (Some log_refused))
       = PutObject body
       /\ rev (log_stream (snd (run cfg_demo env_log_refused)))
          = (ERROR, "Failed to upload logs: " ++ exn_text log_refused)
            :: (lvl, body) :: rest
       /\ ((lvl = INFO /\ body = "Pipeline completed successfully"
            /\ reported_status (snd (run cfg_demo env_log_refused))
               = Some SUCCESS)
           \/ (exists reason,
                 lvl = ERROR /\ body = "Pipeline failed: " ++ reason
                 /\ reported_status (snd (run cfg_demo env_log_refused))
                    = Some (FAILURE reason))).
Proof.
  split; [vm_compute; left; reflexivity|].
  split; [reflexivity|]. split; [reflexivity|].
  apply (log_upload_client_error_is_advisory cfg_demo env_log_refused).
  - vm_compute. left. reflexivity.
  - reflexivity.
  - reflexivity.
Defined.

Lemma run_without_log_bucket (cfg : Config) (env : Env) :
  configured (LOGS_BUCKET cfg) = None ->
  returned_normally (run cfg env) = true
  /\ log_writes (snd (run cfg env)) = []
  /\ In (WARNING, "LOGS_BUCKET not configured, skipping log upload")
        (log_stream (snd (run cfg env))).
Proof.
  intros Hl. remember (run cfg env) as r eqn:Hr.
  unfold_run_in Hr. rewrite Hl in Hr. split_run_in Hr; subst r; cbn.
  all: repeat split; find_record.
Qed.

(** X13 -- Without a log bucket, unset or empty, [main] always returns
    normally: no log object is requested and the logger is warned that
    the upload is skipped. *)
Theorem main_without_log_bucket_returns (cfg : Config) (env : Env) :
  configured (LOGS_BUCKET cfg) = None ->
  returned_normally (run cfg env) = true
  /\ log_writes (snd (run cfg env)) = []
  /\ In (WARNING, "LOGS_BUCKET not configured, skipping log upload")
        (log_stream (snd (run cfg env))).
Proof. apply run_without_log_bucket. Qed.

Lemma main_without_log_bucket_returns_witness :
  configured (LOGS_BUCKET cfg_no_log_bucket) = None
  /\ returned_normally (run cfg_no_log_bucket env_fine) = true
  /\ log_writes (snd (run cfg_no_log_bucket env_fine)) = []
  /\ In (WARNING, "LOGS_BUCKET not configured, skipping log upload")
        (log_stream (snd (run cfg_no_log_bucket env_fine))).
Proof.
  split; [reflexivity|].
  apply (main_without_log_bucket_returns cfg_no_log_bucket env_fine).
  reflexivity.
Defined.

(** X15 -- [main] raises exactly when its last S3 request is a log
    upload that S3 answered with an exception other than a [ClientError],
    and what it raises is that exception: nothing else leaves [main]. *)
Theorem main_raises_exactly_the_last_log_upload_error
    (cfg : Config) (env : Env) (e : pyexn) :
  fst (run cfg env) = inr e
  <-> exists c,
        hd_error (rev (s3_calls (snd (run cfg env)))) = Some c
        /\ is_put c = true
        /\ call_outcome c = Some e
        /\ is_ClientError e = false.
Proof.
  remember (run cfg env) as r eqn:Hr.
  unfold_run_in Hr. split_run_in Hr; subst r; cbn.
  all: split;
    [ intros H; try discriminate H; injection H as <-;
      eexists; repeat split; assumption
    | intros [c [H1 [H2 [H3 H4]]]];
      try discriminate H1; injection H1 as <-; cbn in H2, H3;
      try discriminate H2; try discriminate H3;
      injection H3 as <-; congruence ].
Qed.

(** X16 -- The log requests of a run: none without a log bucket; with
    one, a single request to that bucket, unless the upload of the
    success summary was answered with an exception other than a
    [ClientError]: then, and only then, [main] takes that for a failure
    of the run and requests a second log object, in the same bucket,
    whose body is "Pipeline failed: " and the text of the exception.  A
    single request is therefore never a success summary that was
    answered with such an exception. *)
Theorem log_requests_of_a_run (cfg : Config) (env : Env) :
  match configured (LOGS_BUCKET cfg), log_writes (snd (run cfg env)) with
  | None, l => l = []
  | Some bucket, [c] =>
      call_bucket c = bucket
      /\ (forall e,
            call_request c = PutObject "Pipeline completed successfully" ->
            call_outcome c = Some e ->
            is_ClientError e = true)
  | Some bucket, [c1; c2] =>
      call_bucket c1 = bucket
      /\ call_bucket c2 = bucket
      /\ call_request c1 = PutObject "Pipeline completed successfully"
      /\ exists e, call_outcome c1 = Some e
                   /\ is_ClientError e = false
                   /\ call_request c2
                      = PutObject ("Pipeline failed: " ++ exn_text e)
  | Some _, _ => False
  end.
Proof.
  remember (run cfg env) as r eqn:Hr.
  unfold_run_in Hr. split_run_in Hr; subst r; cbn.
  all: first
    [ reflexivity
    | split; [reflexivity|];
      intros e' Hreq Hout; cbn in Hreq, Hout;
      first [ discriminate Hout
            | injection Hout as <-; assumption
            | exfalso; injection Hreq as Hreq; cbn in Hreq;
              discriminate Hreq ]
    | split; [reflexivity|]; split; [reflexivity|]; split; [reflexivity|];
      eexists; repeat split; assumption ].
Qed.

(** X17 -- A run makes at most four S3 requests: at most two file
    uploads, all of them before the first log upload, and at most two
    log uploads. *)
Theorem requests_of_a_run_are_few_and_ordered (cfg : Config) (env : Env) :
  s3_calls (snd (run cfg env))
  = (file_uploads (snd (run cfg env)) ++ log_writes (snd (run cfg env)))%list
  /\ List.length (file_uploads (snd (run cfg env))) <= 2
  /\ List.length (log_writes (snd (run cfg env))) <= 2.
Proof.
  remember (run cfg env) as r eqn:Hr.
  unfold_run_in Hr. split_run_in Hr; subst r; cbn.
  all: repeat split; lia.
Qed.

(** X18 -- A file upload that S3 answers with an exception other than a
    [ClientError] ends the run: it is the last file upload, the text of
    the exception is the reason of the failure given to the logger, and
    the only log object requested carries that reason. *)
Theorem upload_error_other_than_client_error_is_fatal
    (cfg : Config) (env : Env) (c : s3_call) (e : pyexn) :
  In c (file_uploads (snd (run cfg env))) ->
  call_outcome c = Some e ->
  is_ClientError e = false ->
  hd_error (rev (file_uploads (snd (run cfg env)))) = Some c
  /\ In (ERROR, "Pipeline failed: " ++ exn_text e)
        (log_stream (snd (run cfg env)))
  /\ Forall (fun body => body = "Pipeline failed: " ++ exn_text e)
            (log_bodies (snd (run cfg env))).
Proof.
  remember (run cfg env) as r eqn:Hr. intros Hin Hout Hce.
  unfold_run_in Hr. split_run_in Hr; subst r; cbn in Hin |- *.
  all: repeat (destruct Hin as [Hin|Hin]; [subst c; cbn in Hout|]);
    try contradiction; try discriminate Hout;
    try (injection Hout as <-); try congruence.
  all: split; [reflexivity|]; split; [find_record|];
    each_call ltac:(reflexivity).
Qed.

Lemma upload_error_other_than_client_error_is_fatal_witness :
  In (mkCall (UploadFile "/tmp/tmpa8s9d0/a.mp4") "video-bucket"
             "incoming/Superettan/2025-01-15/a.mp4" (Some upload_failed))
     (file_uploads (snd (run cfg_demo env_video_upload_breaks)))
  /\ call_outcome
       (mkCall (UploadFile "/tmp/tmpa8s9d0/a.mp4") "video-bucket"
               "incoming/Superettan/2025-01-15/a.mp4" (Some upload_failed))
     = Some upload_failed
  /\ is_ClientError upload_failed = false
  /\ hd_error (rev (file_uploads (snd (run cfg_demo env_video_upload_breaks))))
     = Some (mkCall (UploadFile "/tmp/tmpa8s9d0/a.mp4") "video-bucket"
                    "incoming/Superettan/2025-01-15/a.mp4"
                    (Some upload_failed))
  /\ In (ERROR, "Pipeline failed: " ++ exn_text upload_failed)
        (log_stream (snd (run cfg_demo env_video_upload_breaks)))
  /\ Forall (fun body => body = "Pipeline failed: " ++ exn_text upload_failed)
            (log_bodies (snd (run cfg_demo env_video_upload_breaks))).
Proof.
  split; [vm_compute; right; left; reflexivity|].
  split; [reflexivity|]. split; [reflexivity|].
  apply (upload_error_other_than_client_error_is_fatal
           cfg_demo env_video_upload_breaks).
  - vm_compute. right. left. reflexivity.
  - reflexivity.
  - reflexivity.
Defined.

(** X19 -- The metadata is stored before a video is looked for: when the
    document holds no candidate, the run fails with "No video URL found
    in highlights" after the metadata upload, which is its only file
    upload. *)
Theorem run_without_candidate_keeps_metadata
    (cfg : Config) (env : Env) (doc : json) (bucket : string) :
  fetch_response env = HttpOk doc ->
  truthy doc = true ->
  Selector.walk doc [] = [] ->
  configured (METADATA_BUCKET cfg) = Some bucket ->
  tempfile_write env = None ->
  s3_response env 0 = None ->
  file_uploads (snd (run cfg env))
  = [mkCall (UploadFile (mktemp_name env)) bucket
            ("highlights/" ++ DEFAULT_LEAGUE cfg ++ "/" ++ DEFAULT_DATE cfg
             ++ "/highlights.json") None]
  /\ reported_status (snd (run cfg env))
     = Some (FAILURE "No video URL found in highlights")
  /\ messages_at ERROR (snd (run cfg env))
     = "Pipeline failed: No video URL found in highlights"
       :: match configured (LOGS_BUCKET cfg), s3_response env 1 with
          | Some _, Some e =>
              if is_ClientError e
              then ["Failed to upload logs: " ++ exn_text e] else []
          | _, _ => []
          end.
Proof.
  intros Hf Ht Hw Hm Htw Hs0.
  assert (Hp : Selector.pick_random_video_from_json doc (random_draw env)
               = None).
  { unfold Selector.pick_random_video_from_json. now rewrite Hw. }
  remember (run cfg env) as r eqn:Hr.
  unfold_run_in Hr. rewrite Hf in Hr. eval_run_in Hr.
  rewrite Ht in Hr. eval_run_in Hr. rewrite Hm, Htw in Hr. eval_run_in Hr.
  rewrite Hs0 in Hr. eval_run_in Hr. rewrite Hp in Hr.
  split_run_in Hr; subst r; repeat split; reflexivity.
Qed.

Lemma run_without_candidate_keeps_metadata_witness :
  fetch_response env_no_url = HttpOk doc_without_url
  /\ truthy doc_without_url = true
  /\ Selector.walk doc_without_url [] = []
  /\ configured (METADATA_BUCKET cfg_demo) = Some "meta-bucket"
  /\ tempfile_write env_no_url = None
  /\ s3_response env_no_url 0 = None
  /\ file_uploads (snd (run cfg_demo env_no_url))
     = [mkCall (UploadFile (mktemp_name env_no_url)) "meta-bucket"
               ("highlights/" ++ DEFAULT_LEAGUE cfg_demo ++ "/"
                ++ DEFAULT_DATE cfg_demo ++ "/highlights.json") None]
  /\ reported_status (snd (run cfg_demo env_no_url))
     = Some (FAILURE "No video URL found in highlights")
  /\ messages_at ERROR (snd (run cfg_demo env_no_url))
     = "Pipeline failed: No video URL found in highlights"
       :: match configured (LOGS_BUCKET cfg_demo), s3_response env_no_url 1 with
          | Some _, Some e =>
              if is_ClientError e
              then ["Failed to upload logs: " ++ exn_text e] else []
          | _, _ => []
          end.
Proof.
  split; [reflexivity|]. split; [reflexivity|]. split; [reflexivity|].
  split; [reflexivity|]. split; [reflexivity|]. split; [reflexivity|].
  apply (run_without_candidate_keeps_metadata
           cfg_demo env_no_url doc_without_url "meta-bucket");
    reflexivity.
Defined.

End PipelineExtra.

(* ------------------------------------------------------------------ *)
(** ** The download and its file                                        *)
(* ------------------------------------------------------------------ *)

Module DownloadFacts.
Import Pipeline Download.
Local Open Scope string_scope.

Lemma append_nil_r (s : string) : s ++ "" = s.
Proof. induction s as [|c s IH]; simpl; [reflexivity|now rewrite IH]. Qed.

Lemma write_chunks_body (written : string) (cs : list string) :
  write_chunks written cs = written ++ body_of cs.
Proof.
  revert written. induction cs as [|c cs IH]; intros written; simpl.
  - now rewrite append_nil_r.
  - fold (write_chunks (if String.eqb c "" then written else written ++ c) cs).
    rewrite IH. destruct (String.eqb c "") eqn:E.
    + apply String.eqb_eq in E. now subst c.
    + now rewrite PyStrFacts.append_assoc.
Qed.

Lemma body_of_skips_empty (cs : list string) :
  body_of (filter (fun c => negb (String.eqb c "")) cs) = body_of cs.
Proof.
  induction cs as [|c cs IH]; [reflexivity|]. simpl.
  destruct (String.eqb c "") eqn:E; simpl; rewrite IH;
    [apply String.eqb_eq in E; now subst c|reflexivity].
Qed.

(** X20 -- Once [download_video] has opened the destination, the file
    holds exactly the chunks received, in order, whatever was there
    before: the whole body when the stream ends, the part that arrived
    when it breaks.  Empty chunks change nothing, no other file is
    touched, and the destination is returned exactly when the stream
    ended without an exception. *)
Theorem download_writes_the_chunks_received
    (ex : exchange) (url dest_path : string) (fs : FileSystem) :
  get_error ex = None ->
  status_error ex = None ->
  open_error ex = None ->
  snd (fst (download_video ex url dest_path fs)) dest_path
  = Some (body_of (chunks ex))
  /\ (forall p, p <> dest_path ->
                snd (fst (download_video ex url dest_path fs)) p = fs p)
  /\ (fst (fst (download_video ex url dest_path fs)) = Some dest_path
      <-> stream_error ex = None)
  /\ body_of (filter (fun c => negb (String.eqb c "")) (chunks ex))
     = body_of (chunks ex).
Proof.
  intros Hg Hs Ho. unfold download_video. rewrite Hg, Hs, Ho.
  assert (Hw : forall p,
             write_file fs dest_path (write_chunks "" (chunks ex)) p
             = if String.eqb p dest_path then Some (body_of (chunks ex))
               else fs p).
  { intros p. unfold write_file. now rewrite write_chunks_body. }
  destruct (stream_error ex) as [e|]; unfold failed; simpl; rewrite Hw.
  all: rewrite String.eqb_refl; split; [reflexivity|]; split;
    [intros p Hp; rewrite Hw;
     destruct (String.eqb_spec p dest_path); [contradiction|reflexivity]|];
    split; [split; intros H; try discriminate H; reflexivity|].
  all: apply body_of_skips_empty.
Qed.

Lemma download_writes_the_chunks_received_witness :
  get_error three_chunks = None
  /\ status_error three_chunks = None
  /\ open_error three_chunks = None
  /\ snd (fst (download_video three_chunks "http://x/a.mp4" "/tmp/v/a.mp4"
                              old_file)) "/tmp/v/a.mp4"
     = Some (body_of (chunks three_chunks))
  /\ (forall p, p <> "/tmp/v/a.mp4" ->
                snd (fst (download_video three_chunks "http://x/a.mp4"
                                         "/tmp/v/a.mp4" old_file)) p
                = old_file p)
  /\ (fst (fst (download_video three_chunks "http://x/a.mp4" "/tmp/v/a.mp4"
                               old_file)) = Some "/tmp/v/a.mp4"
      <-> stream_error three_chunks = None)
  /\ body_of (filter (fun c => negb (String.eqb c "")) (chunks three_chunks))
     = body_of (chunks three_chunks).
Proof.
  split; [reflexivity|]. split; [reflexivity|]. split; [reflexivity|].
  apply (download_writes_the_chunks_received
           three_chunks "http://x/a.mp4" "/tmp/v/a.mp4" old_file);
    reflexivity.
Defined.

(** X21 -- [download_video] never raises, and a failure before the
    destination is opened (no connection, an HTTP error status, a
    destination that cannot be opened) leaves every file as it was, the
    previous content of the destination included.  Its value and its log
    records are those of the download that [main] is run with, its
    answer being the first exception of the exchange. *)
Theorem download_keeps_files_on_early_failure
    (ex : exchange) (url dest_path : string) (fs : FileSystem)
    (env : Env) (w : World) :
  ((get_error ex <> None \/ status_error ex <> None \/ open_error ex <> None)
   -> snd (fst (download_video ex url dest_path fs)) = fs
      /\ fst (fst (download_video ex url dest_path fs)) = None)
  /\ (fst (fst (download_video ex url dest_path fs)) = None
      <-> first_error ex <> None)
  /\ fst (Pipeline.download_video (with_download env (first_error ex))
                                  url dest_path w)
     = inl (fst (fst (download_video ex url dest_path fs)))
  /\ log_stream (snd (Pipeline.download_video
                        (with_download env (first_error ex)) url dest_path w))
     = (log_stream w ++ snd (download_video ex url dest_path fs))%list.
Proof.
  unfold download_video, first_error, Pipeline.download_video, with_download,
    failed, try_except, bind, may_raise, raise, ret, log.
  destruct (get_error ex) as [e1|]; [|destruct (status_error ex) as [e2|];
    [|destruct (open_error ex) as [e3|];
      [|destruct (stream_error ex) as [e4|]]]]; simpl;
    rewrite <- ?app_assoc; simpl.
  all: split; [intros H; try (split; reflexivity);
               destruct H as [H|[H|H]]; contradiction|].
  all: split; [split; intros H; try discriminate; try reflexivity;
               try (exfalso; now apply H)|].
  all: split; reflexivity.
Qed.

End DownloadFacts.

(* ------------------------------------------------------------------ *)
(** ** Listing objects                                                  *)
(* ------------------------------------------------------------------ *)

Module S3UtilsFacts.
Import Json S3Utils.
Local Open Scope string_scope.

Lemma loop_from_none (pages : list json) :
  fold_left (fun objs page =>
               match objs with
               | None => None
               | Some objs =>
                   match page_keys page with
                   | Some ks => Some (objs ++ ks)%list
                   | None => None
                   end
               end) pages None = None.
Proof. induction pages as [|p ps IH]; [reflexivity|exact IH]. Qed.

Lemma loop_from_some (pages : list json) (acc : list json) :
  fold_left (fun objs page =>
               match objs with
               | None => None
               | Some objs =>
                   match page_keys page with
                   | Some ks => Some (objs ++ ks)%list
                   | None => None
                   end
               end) pages (Some acc)
  = glue (Some acc) (list_objects pages).
Proof.
  unfold list_objects. revert acc.
  induction pages as [|p ps IH]; intros acc; simpl.
  - now rewrite app_nil_r.
  - destruct (page_keys p) as [ks|].
    + rewrite (IH (acc ++ ks)%list), (IH ks).
      destruct (fold_left _ ps (Some [])) as [r|]; simpl; [|reflexivity].
      now rewrite app_assoc.
    + now rewrite loop_from_none.
Qed.

Lemma keys_of_well_formed (keys : list string) :
  keys_of (map (fun k => JDict [("Key", JStr k); ("Size", JInt 0)]) keys)
  = Some (map JStr keys).
Proof.
  induction keys as [|k ks IH]; [reflexivity|]. simpl. now rewrite IH.
Qed.

(** X22 -- [list_objects] returns the keys page by page, in the order of
    the pages: the result for pages read one after the other is the
    result for the first pages followed by the result for the others,
    and an exception in either part is an exception of the whole.  A
    page without "Contents", as S3 sends for an empty listing, adds
    nothing and raises nothing; pages of objects that each have a key
    give all the keys. *)
Theorem list_objects_reads_page_by_page
    (pages1 pages2 : list json) (items : list (string * json))
    (listing : list (list string)) :
  list_objects (pages1 ++ pages2)
  = glue (list_objects pages1) (list_objects pages2)
  /\ (Transcode.subscript (JDict items) "Contents" = None ->
      list_objects (pages1 ++ JDict items :: pages2)
      = list_objects (pages1 ++ pages2))
  /\ list_objects (map page_of listing) = Some (map JStr (List.concat listing)).
Proof.
  assert (Happ : forall ps qs,
             list_objects (ps ++ qs) = glue (list_objects ps) (list_objects qs)).
  { intros ps qs. unfold list_objects at 1. rewrite fold_left_app.
    fold (list_objects ps). destruct (list_objects ps) as [a|].
    - apply loop_from_some.
    - apply loop_from_none. }
  split; [apply Happ|]. split.
  - intros Hnone. rewrite !Happ. f_equal.
    change (JDict items :: pages2) with ([JDict items] ++ pages2)%list.
    rewrite Happ.
    assert (E : list_objects [JDict items] = Some []).
    { unfold list_objects, page_keys, page_contents. simpl.
      simpl in Hnone. now rewrite Hnone. }
    rewrite E. now destruct (list_objects pages2).
  - induction listing as [|keys rest IH]; [reflexivity|].
    change (map page_of (keys :: rest))
      with ([page_of keys] ++ map page_of rest)%list.
    rewrite Happ, IH.
    assert (E : list_objects [page_of keys] = Some (map JStr keys)).
    { unfold list_objects, page_of, page_keys, page_contents. simpl.
      now rewrite keys_of_well_formed. }
    rewrite E. simpl. now rewrite map_app.
Qed.

End S3UtilsFacts.

(* ------------------------------------------------------------------ *)
(** ** The settings and the run                                         *)
(* ------------------------------------------------------------------ *)

Module ConfigFacts.
Import Json Pipeline PipelineFacts ConfigLoad.
Local Open Scope string_scope.

(** X23 -- A log bucket variable that is set to the empty string
    switches the log upload off exactly as an unset one does:
    [os.getenv] hands the empty string on, [if not Config.LOGS_BUCKET]
    takes it for no bucket, and [main] run with the loaded settings
    requests no log object and returns normally. *)
Theorem empty_log_bucket_variable_disables_the_upload
    (environ : string -> option string) (today : PyStr.datetime)
    (env : Env) :
  environ "LOGS_BUCKET" = None \/ environ "LOGS_BUCKET" = Some "" ->
  log_writes (snd (run (base (load_config environ today)) env)) = []
  /\ returned_normally (run (base (load_config environ today)) env) = true.
Proof.
  intros H.
  assert (Hc : configured (LOGS_BUCKET (base (load_config environ today)))
               = None).
  { simpl. destruct H as [-> | ->]; reflexivity. }
  destruct (PipelineExtra.run_without_log_bucket _ env Hc) as [H1 [H2 _]].
  now split.
Qed.

Lemma empty_log_bucket_variable_disables_the_upload_witness :
  (environ_empty_log_bucket "LOGS_BUCKET" = None
   \/ environ_empty_log_bucket "LOGS_BUCKET" = Some "")
  /\ log_writes (snd (run (base (load_config environ_empty_log_bucket noon))
                          env_fine)) = []
  /\ returned_normally
       (run (base (load_config environ_empty_log_bucket noon)) env_fine)
     = true.
Proof.
  split; [right; reflexivity|].
  apply (empty_log_bucket_variable_disables_the_upload
           environ_empty_log_bucket noon env_fine).
  right. reflexivity.
Defined.

Lemma fetch_url_is_logged (cfg : Config) (env : Env) :
  In (INFO, "Fetching highlights from " ++ fetch_url cfg)
     (log_stream (snd (run cfg env))).
Proof.
  remember (run cfg env) as r eqn:Hr. unfold fetch_url.
  unfold_run_in Hr. split_run_in Hr; subst r; cbn.
  all: right; left; reflexivity.
Qed.

(** X24 -- The URL that [Config] builds as [HIGHLIGHTS_URL] is never the
    one that is fetched: whatever the environment, [fetch_highlights]
    requests the path "/football.league" on the configured host, with
    the configured league and date, and this URL differs from
    [HIGHLIGHTS_URL], whose path is "/highlights". *)
Theorem highlights_url_is_never_fetched
    (environ : string -> option string) (today : PyStr.datetime)
    (env : Env) :
  In (INFO, "Fetching highlights from "
            ++ fetch_url (base (load_config environ today)))
     (log_stream (snd (run (base (load_config environ today)) env)))
  /\ fetch_url (base (load_config environ today))
     = "https://" ++ getenv_or environ "RAPIDAPI_HOST"
                                "sport-highlights-api.p.rapidapi.com"
       ++ "/football.league?league="
       ++ getenv_or environ "DEFAULT_LEAGUE" "Superettan"
       ++ "&date=" ++ getenv_or environ "DEFAULT_DATE" (strftime_date today)
  /\ fetch_url (base (load_config environ today))
     <> HIGHLIGHTS_URL (load_config environ today).
Proof.
  split; [apply fetch_url_is_logged|]. split; [reflexivity|].
  unfold fetch_url, load_config. simpl. intros H.
  injection H as H. apply NamesExtra.append_inj_l in H. discriminate H.
Qed.

End ConfigFacts.

(* ------------------------------------------------------------------ *)
(** ** The buffering logger, continued                                  *)
(* ------------------------------------------------------------------ *)

Module LoggerExtra.
Import Logger LoggerInit.
Local Open Scope string_scope.

Lemma buffer_after_calls (calls : list call) (l : PipelineLogger) :
  get_bytes (fold_left apply_call calls l)
  = buf l ++ fold_right (fun c acc => line_of c ++ acc) "" calls.
Proof.
  revert l. induction calls as [|c r IH]; intros l; simpl.
  - unfold get_bytes. now rewrite DownloadFacts.append_nil_r.
  - rewrite IH. destruct c; simpl; now rewrite PyStrFacts.append_assoc.
Qed.

(** X25 -- The buffer of a [PipelineLogger] is append-only: after any
    calls of [info] and [error], [get_bytes] is what it was before,
    followed by one line per call, in the order of the calls, each line
    being the time stamp, the level, the message and a newline. *)
Theorem logger_buffer_is_append_only
    (before after : list call) (l : PipelineLogger) :
  get_bytes (fold_left apply_call (before ++ after) l)
  = get_bytes (fold_left apply_call before l)
    ++ fold_right (fun c acc => line_of c ++ acc) "" after.
Proof.
  rewrite fold_left_app, (buffer_after_calls after). reflexivity.
Qed.

Lemma init_all_from (fresh : list nat) (r : registry)
    (ls : list PipelineLogger) :
  fold_left (fun acc h => let '(reg, ls) := acc in
                          let '(reg', l) := init h reg in
                          (reg', ls ++ [l])%list)
            fresh (r, ls)
  = (match fresh, handlers r with
     | [], _ => r
     | h :: _, [] => mkRegistry [h] true
     | _ :: _, hs => mkRegistry hs true
     end,
     (ls ++ repeat new_logger (List.length fresh))%list).
Proof.
  revert r ls. induction fresh as [|h t IH]; intros r ls; simpl.
  - now rewrite app_nil_r.
  - rewrite IH. simpl. rewrite <- app_assoc. simpl. f_equal.
    destruct t as [|h' t'], (handlers r) as [|x xs]; reflexivity.
Qed.

(** X26 -- However many [PipelineLogger] objects are constructed, the
    logger named "pipeline" never gets a second handler from them: on a
    logger that had none the first construction attaches its handler and
    the later ones attach nothing, and a logger that had handlers keeps
    exactly those.  Every object starts with an empty buffer of its
    own. *)
Theorem constructing_loggers_adds_one_handler_at_most
    (fresh : list nat) (r : registry) :
  handlers (fst (init_all fresh r))
  = match fresh, handlers r with
    | h :: _, [] => [h]
    | _, hs => hs
    end
  /\ List.length (handlers (fst (init_all fresh r)))
     <= Nat.max 1 (List.length (handlers r))
  /\ snd (init_all fresh r) = repeat new_logger (List.length fresh)
  /\ Forall (fun l => get_bytes l = "") (snd (init_all fresh r)).
Proof.
  unfold init_all. rewrite init_all_from. simpl.
  split; [|split; [|split; [reflexivity|]]].
  - destruct fresh as [|h t], (handlers r) as [|x xs]; reflexivity.
  - destruct fresh as [|h t], (handlers r) as [|x xs]; simpl; lia.
  - apply Forall_forall. intros l Hl. apply repeat_spec in Hl. now subst l.
Qed.

End LoggerExtra.
